(** * Item fulfillment tracker: the store of [app.js] and its checkpoints

    A shallow embedding of the [FulfillmentStore] class of [app.js] and of
    the handlers of [UIController] that feed its checkpoints, followed by the
    properties of the fulfillment state machine: creation, the drop-off and
    collection checkpoints, the unchecked advance, deletion, persistence.

    Conventions of the embedding.
    - A JavaScript string is a Rocq [string] read as a sequence of ASCII
      characters; [trim], [toUpperCase] and the UTF-8 encoding are exact on
      codes 0..127 and leave larger codes alone.
    - The store object is the record [Store]: the [fulfillments] array, the
      [localStorage] entry under the key ['fulfillments'], and the log of the
      collections handed to the listeners by [notify].  A method is a
      function from the store to a result and the next store; an object
      found by [Array.prototype.find] and then assigned to is the first
      matching element of the list, replaced in place.
    - What the platform draws from outside (the clock, [Math.random]) is an
      explicit argument of the method that reads it.  A result of
      [Math.random()] is a binary64 number given by its significand and
      exponent; products and sums are rounded to nearest, ties to even.
    - [crypto.subtle.digest('SHA-256', _)] is SHA-256 as FIPS 180-4 defines
      it, on 32-bit words held in [Z].
    - [JSON.parse] is a lexer and a pushdown automaton for the grammar of
      ECMA-404; a number keeps the text of its literal.
    - [await] is sequencing: a method runs to its end before another one
      starts. *)

From Stdlib Require Import ZArith NArith List String Ascii Bool Lia.
Import ListNotations.

Set Warnings "-register-all".

Local Open Scope string_scope.

(* ================================================================== *)
(** * Part I. Definitions *)
(* ================================================================== *)

(** ** JavaScript strings *)

Module JsString.

Definition code (c : ascii) : N := N_of_ascii c.

(** [String.prototype.toUpperCase], on ASCII. *)
Definition upperChar (c : ascii) : ascii :=
  if ((97 <=? code c) && (code c <=? 122))%N
  then ascii_of_N (code c - 32) else c.

Fixpoint toUpperCase (s : string) : string :=
  match s with
  | EmptyString => EmptyString
  | String c r => String (upperChar c) (toUpperCase r)
  end.

(** White space and line terminators of [String.prototype.trim], on ASCII:
    TAB, LF, VT, FF, CR and SP. *)
Definition isWhiteSpace (c : ascii) : bool :=
  ((9 <=? code c) && (code c <=? 13) || (code c =? 32))%N.

Fixpoint trimStart (s : string) : string :=
  match s with
  | EmptyString => EmptyString
  | String c r => if isWhiteSpace c then trimStart r else s
  end.

Fixpoint trimEnd (s : string) : string :=
  match s with
  | EmptyString => EmptyString
  | String c r =>
      match trimEnd r with
      | EmptyString => if isWhiteSpace c then EmptyString else String c EmptyString
      | r' => String c r'
      end
  end.

Definition trim (s : string) : string := trimEnd (trimStart s).

Definition isDigit (c : ascii) : bool := ((48 <=? code c) && (code c <=? 57))%N.

Fixpoint allDigits (s : string) : bool :=
  match s with
  | EmptyString => true
  | String c r => isDigit c && allDigits r
  end.

(** The digit of [Number.prototype.toString(radix)]: [0-9] then [a-z]. *)
Definition digitChar (d : N) : ascii :=
  if (d <? 10)%N then ascii_of_N (48 + d) else ascii_of_N (87 + d).

Fixpoint digitsAux (fuel : nat) (radix n : N) (acc : string) : string :=
  match fuel with
  | O => acc
  | S k =>
      let acc' := String (digitChar (n mod radix)) acc in
      if (n / radix =? 0)%N then acc' else digitsAux k radix (n / radix) acc'
  end.

(** [n.toString(radix)] for a non-negative integer [n]; a number of [b] bits
    has at most [b] digits in any radix from 2 to 36. *)
Definition toStringRadix (radix n : N) : string :=
  digitsAux (S (N.to_nat (N.log2 n))) radix n EmptyString.

Definition toString (n : N) : string := toStringRadix 10 n.

(** [s.substr(start, len)]. *)
Fixpoint take (len : nat) (s : string) : string :=
  match len, s with
  | S k, String c r => String c (take k r)
  | _, _ => EmptyString
  end.

Fixpoint drop (start : nat) (s : string) : string :=
  match start, s with
  | S k, String _ r => drop k r
  | _, _ => s
  end.

Definition substr (start len : nat) (s : string) : string :=
  take len (drop start s).

(** [s.padStart(len, "0")]. *)
Fixpoint repeatChar (k : nat) (c : ascii) : string :=
  match k with
  | O => EmptyString
  | S k' => String c (repeatChar k' c)
  end.

Definition padStart (len : nat) (c : ascii) (s : string) : string :=
  repeatChar (len - String.length s) c ++ s.

(** [parts.join('')]. *)
Definition join (parts : list string) : string :=
  fold_right append EmptyString parts.

End JsString.

(** ** SHA-256 ([crypto.subtle.digest('SHA-256', data)]), FIPS 180-4 *)

Module Sha256.
Local Open Scope Z_scope.

Definition wrap (x : Z) : Z := Z.land x 4294967295.
Definition add32 (x y : Z) : Z := wrap (x + y).
Definition rotr (n x : Z) : Z :=
  Z.lor (Z.shiftr x n) (wrap (Z.shiftl x (32 - n))).
Definition not32 (x : Z) : Z := Z.lxor x 4294967295.

Definition Ch (x y z : Z) : Z := Z.lxor (Z.land x y) (Z.land (not32 x) z).
Definition Maj (x y z : Z) : Z :=
  Z.lxor (Z.lxor (Z.land x y) (Z.land x z)) (Z.land y z).
Definition Sigma0 (x : Z) : Z := Z.lxor (Z.lxor (rotr 2 x) (rotr 13 x)) (rotr 22 x).
Definition Sigma1 (x : Z) : Z := Z.lxor (Z.lxor (rotr 6 x) (rotr 11 x)) (rotr 25 x).
Definition sigma0 (x : Z) : Z := Z.lxor (Z.lxor (rotr 7 x) (rotr 18 x)) (Z.shiftr x 3).
Definition sigma1 (x : Z) : Z := Z.lxor (Z.lxor (rotr 17 x) (rotr 19 x)) (Z.shiftr x 10).

Definition K : list Z :=
  [ 1116352408; 1899447441; 3049323471; 3921009573;
    961987163; 1508970993; 2453635748; 2870763221;
    3624381080; 310598401; 607225278; 1426881987;
    1925078388; 2162078206; 2614888103; 3248222580;
    3835390401; 4022224774; 264347078; 604807628;
    770255983; 1249150122; 1555081692; 1996064986;
    2554220882; 2821834349; 2952996808; 3210313671;
    3336571891; 3584528711; 113926993; 338241895;
    666307205; 773529912; 1294757372; 1396182291;
    1695183700; 1986661051; 2177026350; 2456956037;
    2730485921; 2820302411; 3259730800; 3345764771;
    3516065817; 3600352804; 4094571909; 275423344;
    430227734; 506948616; 659060556; 883997877;
    958139571; 1322822218; 1537002063; 1747873779;
    1955562222; 2024104815; 2227730452; 2361852424;
    2428436474; 2756734187; 3204031479; 3329325298 ].

Definition H0 : list Z :=
  [ 1779033703; 3144134277; 1013904242; 2773480762;
    1359893119; 2600822924; 528734635; 1541459225 ].

(** Padding: the bit 1, zeros up to 56 modulo 64 bytes, the bit length on
    eight big-endian bytes. *)
Definition bigEndian (count : nat) (x : Z) : list Z :=
  map (fun i => Z.land (Z.shiftr x (8 * Z.of_nat i)) 255) (rev (seq 0 count)).

Definition pad (msg : list Z) : list Z :=
  let len := Z.of_nat (List.length msg) in
  let zeros := Z.to_nat ((55 - len) mod 64) in
  msg ++ 128 :: repeat 0 zeros ++ bigEndian 8 (8 * len).

Fixpoint wordsOf (bytes : list Z) : list Z :=
  match bytes with
  | a :: b :: c :: d :: rest =>
      (Z.shiftl a 24 + Z.shiftl b 16 + Z.shiftl c 8 + d) :: wordsOf rest
  | _ => []
  end.

(** The message schedule, most recent word first. *)
Fixpoint extend (count : nat) (recent : list Z) : list Z :=
  match count with
  | O => recent
  | S k =>
      let w i := nth i recent 0 in
      extend k (add32 (add32 (sigma1 (w 1%nat)) (w 6%nat))
                      (add32 (sigma0 (w 14%nat)) (w 15%nat)) :: recent)
  end.

Definition schedule (block : list Z) : list Z :=
  rev (extend 48 (rev block)).

Record Regs : Type := mkRegs
  { ra : Z; rb : Z; rc : Z; rd : Z; re : Z; rf : Z; rg : Z; rh : Z }.

Definition round (r : Regs) (kw : Z * Z) : Regs :=
  let t1 := add32 (add32 (add32 (rh r) (Sigma1 (re r)))
                         (add32 (Ch (re r) (rf r) (rg r)) (fst kw))) (snd kw) in
  let t2 := add32 (Sigma0 (ra r)) (Maj (ra r) (rb r) (rc r)) in
  mkRegs (add32 t1 t2) (ra r) (rb r) (rc r) (add32 (rd r) t1) (re r) (rf r) (rg r).

Definition compress (h : Regs) (block : list Z) : Regs :=
  let r := fold_left round (combine K (schedule block)) h in
  mkRegs (add32 (ra h) (ra r)) (add32 (rb h) (rb r)) (add32 (rc h) (rc r))
         (add32 (rd h) (rd r)) (add32 (re h) (re r)) (add32 (rf h) (rf r))
         (add32 (rg h) (rg r)) (add32 (rh h) (rh r)).

Fixpoint blocks (fuel : nat) (words : list Z) (h : Regs) : Regs :=
  match fuel, words with
  | S k, _ :: _ => blocks k (skipn 16 words) (compress h (firstn 16 words))
  | _, _ => h
  end.

Definition initial : Regs :=
  mkRegs (nth 0 H0 0) (nth 1 H0 0) (nth 2 H0 0) (nth 3 H0 0)
         (nth 4 H0 0) (nth 5 H0 0) (nth 6 H0 0) (nth 7 H0 0).

(** The digest, as the 32 bytes of the [ArrayBuffer]. *)
Definition digest (msg : list Z) : list Z :=
  let words := wordsOf (pad msg) in
  let r := blocks (List.length words) words initial in
  flat_map (bigEndian 4)
    [ra r; rb r; rc r; rd r; re r; rf r; rg r; rh r].

End Sha256.

(** ** IEEE 754 binary64, as far as [generatePassword] needs it *)

Module Double.
Local Open Scope Z_scope.

(** A finite non-negative double: the value [sig * 2 ^ exp], with
    [sig < 2 ^ 53] (or the power [2 ^ 53] itself after a carry). *)
Record double : Type := mk { sig : Z; exp : Z }.

(** [n / 2 ^ sh] rounded to the nearest integer, ties to even. *)
Definition roundHalfEven (n sh : Z) : Z :=
  let q := n / 2 ^ sh in
  let r := n mod 2 ^ sh in
  let half := 2 ^ (sh - 1) in
  if r <? half then q
  else if half <? r then q + 1
  else if Z.even q then q else q + 1.

(** The double nearest to the exact value [n * 2 ^ e]: the 53 leading bits
    of [n] are kept.  Overflow and gradual underflow are left out: the
    numbers of [generatePassword] stay between [2 ^ -1074] and a million. *)
Definition round53 (n e : Z) : double :=
  if n <? 2 ^ 53 then mk n e
  else let sh := Z.log2 n - 52 in mk (roundHalfEven n sh) (e + sh).

Definition ofInt (z : Z) : double := mk z 0.

Definition mul (a b : double) : double :=
  round53 (sig a * sig b) (exp a + exp b).

Definition add (a b : double) : double :=
  let e := Z.min (exp a) (exp b) in
  round53 (sig a * 2 ^ (exp a - e) + sig b * 2 ^ (exp b - e)) e.

(** [Math.floor]. *)
Definition floor (a : double) : Z :=
  if 0 <=? exp a then sig a * 2 ^ exp a else sig a / 2 ^ (- exp a).

(** What [Math.random()] may return: a double in the interval [0, 1). *)
Definition unitInterval (a : double) : Prop :=
  0 <= sig a < 2 ^ 53 /\ -1074 <= exp a <= -53.

End Double.

(** ** JSON text ([JSON.parse], [JSON.stringify]), ECMA-404 *)

Module Json.
Local Open Scope N_scope.
Import JsString.

(** A parsed value.  A number keeps the text of its literal; an object
    keeps its members in the order of the text. *)
Inductive value : Type :=
| Null
| Bool (b : bool)
| Number (literal : string)
| Str (s : string)
| Array (items : list value)
| Object (members : list (string * value)).

Inductive token : Type :=
| LBrace | RBrace | LBracket | RBracket | Colon | Comma
| TStr (s : string) | TNum (literal : string) | TTrue | TFalse | TNull.

Definition ofRev (acc : list ascii) : string := string_of_list_ascii (rev acc).

Definition isLower (c : ascii) : bool := (97 <=? code c) && (code c <=? 122).

(** The grammar of a number literal, as an automaton over its characters. *)
Inductive numState : Type :=
| NStart | NMinus | NZero | NInt | NDot | NFrac | NExp | NExpSign | NExpDigits | NBad.

Definition numStep (st : numState) (c : ascii) : numState :=
  let d := isDigit c in
  let z := code c =? 48 in
  let dot := code c =? 46 in
  let e := (code c =? 101) || (code c =? 69) in
  let sign := (code c =? 43) || (code c =? 45) in
  match st with
  | NStart => if code c =? 45 then NMinus else if z then NZero else if d then NInt else NBad
  | NMinus => if z then NZero else if d then NInt else NBad
  | NZero => if dot then NDot else if e then NExp else NBad
  | NInt => if d then NInt else if dot then NDot else if e then NExp else NBad
  | NDot => if d then NFrac else NBad
  | NFrac => if d then NFrac else if e then NExp else NBad
  | NExp => if d then NExpDigits else if sign then NExpSign else NBad
  | NExpSign => if d then NExpDigits else NBad
  | NExpDigits => if d then NExpDigits else NBad
  | NBad => NBad
  end.

Definition validNumber (literal : string) : bool :=
  match fold_left numStep (list_ascii_of_string literal) NStart with
  | NZero | NInt | NFrac | NExpDigits => true
  | _ => false
  end.

Definition isNumberChar (c : ascii) : bool :=
  isDigit c || (code c =? 43) || (code c =? 45) || (code c =? 46)
  || (code c =? 101) || (code c =? 69).

Definition hexValue (c : ascii) : option N :=
  if isDigit c then Some (code c - 48)
  else if (97 <=? code c) && (code c <=? 102) then Some (code c - 87)
  else if (65 <=? code c) && (code c <=? 70) then Some (code c - 55)
  else None.

(** The lexer reads one character at a time. *)
Inductive lexState : Type :=
| LStart
| LString (acc : list ascii)
| LEscape (acc : list ascii)
| LUnicode (acc : list ascii) (remaining : nat) (point : N)
| LNumber (acc : list ascii)
| LWord (acc : list ascii).

Definition wordToken (acc : list ascii) : option token :=
  let w := ofRev acc in
  if String.eqb w "true" then Some TTrue
  else if String.eqb w "false" then Some TFalse
  else if String.eqb w "null" then Some TNull
  else None.

Definition numberToken (acc : list ascii) : option token :=
  let w := ofRev acc in
  if validNumber w then Some (TNum w) else None.

(** A character met between two tokens. *)
Definition lexStart (c : ascii) (toks : list token) : option (lexState * list token) :=
  let k := code c in
  if (k =? 32) || (k =? 9) || (k =? 10) || (k =? 13) then Some (LStart, toks)
  else if k =? 123 then Some (LStart, LBrace :: toks)
  else if k =? 125 then Some (LStart, RBrace :: toks)
  else if k =? 91 then Some (LStart, LBracket :: toks)
  else if k =? 93 then Some (LStart, RBracket :: toks)
  else if k =? 58 then Some (LStart, Colon :: toks)
  else if k =? 44 then Some (LStart, Comma :: toks)
  else if k =? 34 then Some (LString [], toks)
  else if (k =? 45) || isDigit c then Some (LNumber [c], toks)
  else if isLower c then Some (LWord [c], toks)
  else None.

(** A code point of a [\u] escape: kept when it is a character of the string
    model, and shown as [?] otherwise. *)
Definition pointChar (point : N) : ascii :=
  if point <? 256 then ascii_of_N point else "?"%char.

Definition lexStep (st : lexState) (c : ascii) (toks : list token)
  : option (lexState * list token) :=
  let k := code c in
  match st with
  | LStart => lexStart c toks
  | LString acc =>
      if k =? 34 then Some (LStart, TStr (ofRev acc) :: toks)
      else if k =? 92 then Some (LEscape acc, toks)
      else if k <? 32 then None
      else Some (LString (c :: acc), toks)
  | LEscape acc =>
      if (k =? 34) || (k =? 92) || (k =? 47) then Some (LString (c :: acc), toks)
      else if k =? 98 then Some (LString (ascii_of_N 8 :: acc), toks)
      else if k =? 102 then Some (LString (ascii_of_N 12 :: acc), toks)
      else if k =? 110 then Some (LString (ascii_of_N 10 :: acc), toks)
      else if k =? 114 then Some (LString (ascii_of_N 13 :: acc), toks)
      else if k =? 116 then Some (LString (ascii_of_N 9 :: acc), toks)
      else if k =? 117 then Some (LUnicode acc 4 0, toks)
      else None
  | LUnicode acc remaining point =>
      match hexValue c with
      | None => None
      | Some h =>
          let point' := 16 * point + h in
          match remaining with
          | S (S k') => Some (LUnicode acc (S k') point', toks)
          | _ => Some (LString (pointChar point' :: acc), toks)
          end
      end
  | LNumber acc =>
      if isNumberChar c then Some (LNumber (c :: acc), toks)
      else match numberToken acc with
           | Some t => lexStart c (t :: toks)
           | None => None
           end
  | LWord acc =>
      if isLower c then Some (LWord (c :: acc), toks)
      else match wordToken acc with
           | Some t => lexStart c (t :: toks)
           | None => None
           end
  end.

Definition lexEnd (st : lexState) (toks : list token) : option (list token) :=
  match st with
  | LStart => Some (rev toks)
  | LNumber acc => option_map (fun t => rev (t :: toks)) (numberToken acc)
  | LWord acc => option_map (fun t => rev (t :: toks)) (wordToken acc)
  | _ => None
  end.

Fixpoint lex (st : lexState) (toks : list token) (text : string) : option (list token) :=
  match text with
  | EmptyString => lexEnd st toks
  | String c rest =>
      match lexStep st c toks with
      | Some (st', toks') => lex st' toks' rest
      | None => None
      end
  end.

(** The parser is a pushdown automaton over the tokens: the stack holds the
    arrays and objects that are still open. *)
Inductive frame : Type :=
| FArray (items : list value)
| FObject (members : list (string * value)) (key : string).

Inductive mode : Type :=
| ExpectValue          (* a value must follow *)
| ExpectValueOrEnd     (* just after an opening bracket *)
| ExpectKeyOrEnd       (* just after an opening brace *)
| ExpectKey            (* after a comma in an object *)
| ExpectColon (key : string)
| ExpectCommaOrEnd     (* after a value inside an array or object *)
| Done (v : value).

(** A finished value goes into the innermost open container. *)
Definition complete (v : value) (stack : list frame) : mode * list frame :=
  match stack with
  | [] => (Done v, [])
  | FArray items :: up => (ExpectCommaOrEnd, FArray (v :: items) :: up)
  | FObject members key :: up =>
      (ExpectCommaOrEnd, FObject ((key, v) :: members) key :: up)
  end.

Definition startValue (t : token) (stack : list frame) : option (mode * list frame) :=
  match t with
  | TNull => Some (complete Null stack)
  | TTrue => Some (complete (Bool true) stack)
  | TFalse => Some (complete (Bool false) stack)
  | TNum literal => Some (complete (Number literal) stack)
  | TStr s => Some (complete (Str s) stack)
  | LBracket => Some (ExpectValueOrEnd, FArray [] :: stack)
  | LBrace => Some (ExpectKeyOrEnd, FObject [] EmptyString :: stack)
  | _ => None
  end.

Definition closeArray (stack : list frame) : option (mode * list frame) :=
  match stack with
  | FArray items :: up => Some (complete (Array (rev items)) up)
  | _ => None
  end.

Definition closeObject (stack : list frame) : option (mode * list frame) :=
  match stack with
  | FObject members _ :: up => Some (complete (Object (rev members)) up)
  | _ => None
  end.

Definition openKey (key : string) (stack : list frame) : option (mode * list frame) :=
  match stack with
  | FObject members _ :: up => Some (ExpectColon key, FObject members key :: up)
  | _ => None
  end.

Definition parseStep (m : mode) (stack : list frame) (t : token)
  : option (mode * list frame) :=
  match m, t with
  | ExpectValue, _ => startValue t stack
  | ExpectValueOrEnd, RBracket => closeArray stack
  | ExpectValueOrEnd, _ => startValue t stack
  | ExpectKeyOrEnd, RBrace => closeObject stack
  | ExpectKeyOrEnd, TStr key => openKey key stack
  | ExpectKey, TStr key => openKey key stack
  | ExpectColon _, Colon => Some (ExpectValue, stack)
  | ExpectCommaOrEnd, Comma =>
      match stack with
      | FArray _ :: _ => Some (ExpectValue, stack)
      | FObject _ _ :: _ => Some (ExpectKey, stack)
      | [] => None
      end
  | ExpectCommaOrEnd, RBracket => closeArray stack
  | ExpectCommaOrEnd, RBrace => closeObject stack
  | _, _ => None
  end.

Fixpoint parseTokens (m : mode) (stack : list frame) (toks : list token) : option value :=
  match toks with
  | [] => match m with Done v => Some v | _ => None end
  | t :: rest =>
      match parseStep m stack t with
      | Some (m', stack') => parseTokens m' stack' rest
      | None => None
      end
  end.

(** [JSON.parse(text)]: the value, or [None] where it throws a
    [SyntaxError]. *)
Definition parse (text : string) : option value :=
  match lex LStart [] text with
  | Some toks => parseTokens ExpectValue [] toks
  | None => None
  end.

(** [JSON.stringify]. *)
Definition hexDigit (d : N) : ascii := digitChar d.

Definition quoteChar (c : ascii) : string :=
  let k := code c in
  if k =? 34 then String "\" (String c EmptyString)
  else if k =? 92 then "\\"
  else if k =? 8 then "\b"
  else if k =? 12 then "\f"
  else if k =? 10 then "\n"
  else if k =? 13 then "\r"
  else if k =? 9 then "\t"
  else if k <? 32 then
    String "\" (String "u" (String "0" (String "0"
      (String (hexDigit (k / 16)) (String (hexDigit (k mod 16)) EmptyString)))))
  else String c EmptyString.

Fixpoint quoteBody (s : string) : string :=
  match s with
  | EmptyString => EmptyString
  | String c r => (quoteChar c ++ quoteBody r)%string
  end.

Definition quote (s : string) : string :=
  String (ascii_of_N 34) (quoteBody s ++ String (ascii_of_N 34) EmptyString)%string.

(** [parts.join(',')]. *)
Fixpoint commaJoin (parts : list string) : string :=
  match parts with
  | [] => EmptyString
  | [p] => p
  | p :: rest => (p ++ "," ++ commaJoin rest)%string
  end.

Fixpoint stringify (v : value) : string :=
  match v with
  | Null => "null"
  | Bool true => "true"
  | Bool false => "false"
  | Number literal => literal
  | Str s => quote s
  | Array items => ("[" ++ commaJoin (map stringify items) ++ "]")%string
  | Object members =>
      ("{" ++ commaJoin (map (fun kv => (quote (fst kv) ++ ":" ++ stringify (snd kv)))%string
                            members) ++ "}")%string
  end.

(** The tokens of the text [stringify] writes. *)
Fixpoint separated (groups : list (list token)) : list token :=
  match groups with
  | [] => []
  | [g] => g
  | g :: rest => g ++ Comma :: separated rest
  end.

Fixpoint tokensOf (v : value) : list token :=
  match v with
  | Null => [TNull]
  | Bool true => [TTrue]
  | Bool false => [TFalse]
  | Number literal => [TNum literal]
  | Str s => [TStr s]
  | Array items => LBracket :: separated (map tokensOf items) ++ [RBracket]
  | Object members =>
      LBrace :: separated (map (fun kv => TStr (fst kv) :: Colon :: tokensOf (snd kv))
                               members) ++ [RBrace]
  end.

(** Values without numbers: what the store writes. *)
Fixpoint numberFree (v : value) : bool :=
  match v with
  | Number _ => false
  | Array items => forallb numberFree items
  | Object members => forallb (fun kv => numberFree (snd kv)) members
  | _ => true
  end.

(** What may follow a value in a JSON text: its end, a comma, or a closing
    bracket or brace. *)
Definition boundary (rest : string) : Prop :=
  match rest with
  | EmptyString => True
  | String c _ => c = ","%char \/ c = "]"%char \/ c = "}"%char
  end.

(** Reading back, stated for one value: the lexer turns its text into its
    tokens, and the automaton turns its tokens into the value. *)
Definition lexesBack (v : value) : Prop :=
  numberFree v = true ->
  forall toks rest, boundary rest ->
    lex LStart toks (stringify v ++ rest) = lex LStart (rev_append (tokensOf v) toks) rest.

Definition resume (p : mode * list frame) (rest : list token) : option value :=
  parseTokens (fst p) (snd p) rest.

Definition startsValue (m : mode) : Prop := m = ExpectValue \/ m = ExpectValueOrEnd.
Definition startsKey (m : mode) : Prop := m = ExpectKey \/ m = ExpectKeyOrEnd.

Definition parsesBack (v : value) : Prop :=
  forall m stack rest, startsValue m ->
    parseTokens m stack (tokensOf v ++ rest)%list = resume (complete v stack) rest.

(** Induction on values, through the lists of arrays and objects. *)
Section ValueInduction.
Variable P : value -> Prop.
Hypothesis PNull : P Null.
Hypothesis PBool : forall b, P (Bool b).
Hypothesis PNumber : forall literal, P (Number literal).
Hypothesis PStr : forall s, P (Str s).
Hypothesis PArray : forall items, Forall P items -> P (Array items).
Hypothesis PObject : forall members,
  Forall (fun kv => P (snd kv)) members -> P (Object members).

Fixpoint value_induction (v : value) : P v :=
  match v with
  | Null => PNull
  | Bool b => PBool b
  | Number literal => PNumber literal
  | Str s => PStr s
  | Array items =>
      PArray items
        ((fix all (l : list value) : Forall P l :=
            match l with
            | [] => Forall_nil P
            | x :: r => Forall_cons x (value_induction x) (all r)
            end) items)
  | Object members =>
      PObject members
        ((fix all (l : list (string * value)) : Forall (fun kv => P (snd kv)) l :=
            match l with
            | [] => Forall_nil _
            | x :: r => Forall_cons x (value_induction (snd x)) (all r)
            end) members)
  end.

End ValueInduction.

End Json.

(** ** The data model of [app.js] *)

Import JsString.

(** An entry of [fulfillment.timeline]. *)
Record TimelineStage : Type := mkStage
  { stage : string;
    title : string;
    description : string;
    timestamp : option string;       (* [null] or an ISO date *)
    completed : bool }.

(** A fulfillment object, with the properties [createFulfillment] gives it. *)
Record Fulfillment : Type := mkFulfillment
  { id : string;
    itemName : string;
    personA : string;
    personB : string;
    personC : string;
    status : string;
    qrCodeUsed : bool;
    passwordHash : string;
    passwordUsed : bool;
    createdAt : string;
    timeline : list TimelineStage }.

(** The argument [data] of [createFulfillment]. *)
Module Data.
Record t : Type := mk
  { itemName : string; personA : string; personB : string; personC : string }.
End Data.

(** The object a checkpoint method returns. *)
Record Result : Type := mkResult
  { success : bool;
    message : string;
    fulfillment : option Fulfillment }.

Definition failure (msg : string) : Result := mkResult false msg None.

(** The failures of the checkpoints, named after their kind; the two
    invalid-state failures differ by their message. *)
Definition NotFound : Result := failure "Fulfillment not found".
Definition TokenAlreadyUsed : Result := failure "QR code has already been used".
Definition InvalidStateNotPending : Result := failure "Fulfillment is not in pending status".
Definition SecretAlreadyUsed : Result := failure "Password has already been used".
Definition InvalidStateNotDroppedOff : Result := failure "Item has not been dropped off yet".
Definition SecretMismatch : Result := failure "Incorrect password".

(** The store: [this.fulfillments], the [localStorage] item
    ['fulfillments'] ([None] when the key is absent), and the arguments of
    the calls [notify] has made to the listeners, latest first. *)
Record Store : Type := mkStore
  { fulfillments : list Fulfillment;
    localStorage : option string;
    notifications : list (list Fulfillment) }.

Definition emptyStore : Store := mkStore [] None [].

(** What a call evaluates to: a value, or a thrown exception. *)
Inductive Exception : Type := SyntaxError.

Inductive Completion (A : Type) : Type :=
| Return (a : A)
| Throw (e : Exception).
Arguments Return {A} a.
Arguments Throw {A} e.

(** Assignments to the properties of an object. *)
Definition setStatus (s : string) (f : Fulfillment) : Fulfillment :=
  mkFulfillment (id f) (itemName f) (personA f) (personB f) (personC f)
    s (qrCodeUsed f) (passwordHash f) (passwordUsed f) (createdAt f) (timeline f).

Definition setQrCodeUsed (b : bool) (f : Fulfillment) : Fulfillment :=
  mkFulfillment (id f) (itemName f) (personA f) (personB f) (personC f)
    (status f) b (passwordHash f) (passwordUsed f) (createdAt f) (timeline f).

Definition setPasswordUsed (b : bool) (f : Fulfillment) : Fulfillment :=
  mkFulfillment (id f) (itemName f) (personA f) (personB f) (personC f)
    (status f) (qrCodeUsed f) (passwordHash f) b (createdAt f) (timeline f).

Definition setTimeline (tl : list TimelineStage) (f : Fulfillment) : Fulfillment :=
  mkFulfillment (id f) (itemName f) (personA f) (personB f) (personC f)
    (status f) (qrCodeUsed f) (passwordHash f) (passwordUsed f) (createdAt f) tl.

Definition setFulfillments (fs : list Fulfillment) (st : Store) : Store :=
  mkStore fs (localStorage st) (notifications st).

(** [xs.find(p)] followed by assignments to the object found: the first
    element that satisfies [p] is updated where it stands. *)
Fixpoint updateFirst {A : Type} (p : A -> bool) (g : A -> A) (xs : list A) : list A :=
  match xs with
  | [] => []
  | x :: rest => if p x then g x :: rest else x :: updateFirst p g rest
  end.

Definition hasId (wanted : string) (f : Fulfillment) : bool := String.eqb (id f) wanted.
Definition isStage (wanted : string) (t : TimelineStage) : bool := String.eqb (stage t) wanted.

(** [const s = timeline.find(t => t.stage === name);
     if (s) { s.completed = true; s.timestamp = now; }] *)
Definition completeStage (now : string) (t : TimelineStage) : TimelineStage :=
  mkStage (stage t) (title t) (description t) (Some now) true.

Definition markStage (name now : string) (f : Fulfillment) : Fulfillment :=
  setTimeline (updateFirst (isStage name) (completeStage now) (timeline f)) f.

(** ** Persistence *)

Definition stageToJson (t : TimelineStage) : Json.value :=
  Json.Object
    [ ("stage", Json.Str (stage t));
      ("title", Json.Str (title t));
      ("description", Json.Str (description t));
      ("timestamp", match timestamp t with Some d => Json.Str d | None => Json.Null end);
      ("completed", Json.Bool (completed t)) ].

Definition toJson (f : Fulfillment) : Json.value :=
  Json.Object
    [ ("id", Json.Str (id f));
      ("itemName", Json.Str (itemName f));
      ("personA", Json.Str (personA f));
      ("personB", Json.Str (personB f));
      ("personC", Json.Str (personC f));
      ("status", Json.Str (status f));
      ("qrCodeUsed", Json.Bool (qrCodeUsed f));
      ("passwordHash", Json.Str (passwordHash f));
      ("passwordUsed", Json.Bool (passwordUsed f));
      ("createdAt", Json.Str (createdAt f));
      ("timeline", Json.Array (map stageToJson (timeline f))) ].

(** The typed reading of a parsed collection: the record each object of
    the array stands for.  [obj.key] is the last member of that name. *)
Definition bind {A B : Type} (o : option A) (k : A -> option B) : option B :=
  match o with
  | Some a => k a
  | None => None
  end.

Notation "x <- o ;; k" := (bind o (fun x => k))
  (at level 61, o at next level, right associativity).

Fixpoint traverse {A B : Type} (f : A -> option B) (l : list A) : option (list B) :=
  match l with
  | [] => Some []
  | x :: rest => y <- f x ;; ys <- traverse f rest ;; Some (y :: ys)
  end.

Definition getProp (key : string) (members : list (string * Json.value))
  : option Json.value :=
  option_map snd (find (fun kv => String.eqb (fst kv) key) (rev members)).

Definition asString (v : Json.value) : option string :=
  match v with Json.Str s => Some s | _ => None end.

Definition asBool (v : Json.value) : option bool :=
  match v with Json.Bool b => Some b | _ => None end.

Definition asNullableString (v : Json.value) : option (option string) :=
  match v with
  | Json.Null => Some None
  | Json.Str s => Some (Some s)
  | _ => None
  end.

Definition asArray (v : Json.value) : option (list Json.value) :=
  match v with Json.Array items => Some items | _ => None end.

Definition asObject (v : Json.value) : option (list (string * Json.value)) :=
  match v with Json.Object members => Some members | _ => None end.

Definition stageFromJson (v : Json.value) : option TimelineStage :=
  ms <- asObject v ;;
  a <- bind (getProp "stage" ms) asString ;;
  b <- bind (getProp "title" ms) asString ;;
  c <- bind (getProp "description" ms) asString ;;
  d <- bind (getProp "timestamp" ms) asNullableString ;;
  e <- bind (getProp "completed" ms) asBool ;;
  Some (mkStage a b c d e).

Definition fromJson (v : Json.value) : option Fulfillment :=
  ms <- asObject v ;;
  a <- bind (getProp "id" ms) asString ;;
  b <- bind (getProp "itemName" ms) asString ;;
  c <- bind (getProp "personA" ms) asString ;;
  d <- bind (getProp "personB" ms) asString ;;
  e <- bind (getProp "personC" ms) asString ;;
  f <- bind (getProp "status" ms) asString ;;
  g <- bind (getProp "qrCodeUsed" ms) asBool ;;
  h <- bind (getProp "passwordHash" ms) asString ;;
  i <- bind (getProp "passwordUsed" ms) asBool ;;
  j <- bind (getProp "createdAt" ms) asString ;;
  k <- bind (bind (getProp "timeline" ms) asArray) (traverse stageFromJson) ;;
  Some (mkFulfillment a b c d e f g h i j k).

Definition collectionFromJson (v : Json.value) : option (list Fulfillment) :=
  bind (asArray v) (traverse fromJson).

(** [loadFromStorage]: [stored ? JSON.parse(stored) : []], where [stored]
    is [null] or a string and the empty string is falsy. *)
Definition loadFromStorage (stored : option string) : Completion Json.value :=
  match stored with
  | None => Return (Json.Array [])
  | Some EmptyString => Return (Json.Array [])
  | Some text =>
      match Json.parse text with
      | Some v => Return v
      | None => Throw SyntaxError
      end
  end.

Definition saveToStorage (st : Store) : Store :=
  mkStore (fulfillments st)
          (Some (Json.stringify (Json.Array (map toJson (fulfillments st)))))
          (notifications st).

Definition notify (st : Store) : Store :=
  mkStore (fulfillments st) (localStorage st) (fulfillments st :: notifications st).

(** ** Secrets and identifiers *)

(** [new TextEncoder().encode(password)]. *)
Definition encode (s : string) : list Z :=
  map (fun c => Z.of_N (code c)) (list_ascii_of_string s).

(** [b.toString(16).padStart(2, '0')] *)
Definition hex2 (b : Z) : string :=
  padStart 2 "0"%char (toStringRadix 16 (Z.to_N b)).

Definition hashPassword (password : string) : string :=
  join (map hex2 (Sha256.digest (encode password))).

(** [Math.floor(100000 + Math.random() * 900000).toString()]; [random] is
    the value of [Math.random()]. *)
Definition generatePassword (random : Double.double) : string :=
  toString (Z.to_N (Double.floor
    (Double.add (Double.ofInt 100000) (Double.mul random (Double.ofInt 900000))))).

(** [x.toString(36)] for a double [x] of the interval [0, 1): ["0"] for
    zero, else ["0."] and the digits of the fraction, as many as the
    engine chooses to print; [digits] are those digits, each read modulo
    36 so that every list stands for an expansion. *)
Definition fractionToString36 (digits : list N) : string :=
  match digits with
  | [] => "0"
  | _ => "0." ++ string_of_list_ascii (map (fun d => digitChar (d mod 36)%N) digits)
  end.

(** ['FUL-' + Date.now().toString(36).toUpperCase() + '-'
     + Math.random().toString(36).substr(2, 5).toUpperCase()] *)
Definition generateId (now : N) (digits : list N) : string :=
  "FUL-" ++ toUpperCase (toStringRadix 36 now) ++ "-"
         ++ toUpperCase (substr 2 5 (fractionToString36 digits)).

Arguments hashPassword : simpl never.
Arguments generatePassword : simpl never.
Arguments generateId : simpl never.

(** ** The methods of [FulfillmentStore] *)

(** What [createFulfillment] reads from the platform, in the order it reads
    it: [Math.random()] for the PIN, [Date.now()] and [Math.random()] for
    the identifier, and [new Date().toISOString()] twice. *)
Record Environment : Type := mkEnvironment
  { pinRandom : Double.double;
    idClock : N;
    idRandomDigits : list N;
    createdAtClock : string;
    createdStageClock : string }.

Definition newFulfillment (data : Data.t) (env : Environment) (hash : string)
  : Fulfillment :=
  {| id := generateId (idClock env) (idRandomDigits env);
     itemName := Data.itemName data;
     personA := Data.personA data;
     personB := Data.personB data;
     personC := Data.personC data;
     status := "pending";
     qrCodeUsed := false;
     passwordHash := hash;
     passwordUsed := false;
     createdAt := createdAtClock env;
     timeline :=
       [ {| stage := "created";
            title := "Fulfillment Created";
            description := Data.personA data ++ " initiated the transfer";
            timestamp := Some (createdStageClock env);
            completed := true |};
         {| stage := "dropped-off";
            title := "Item Dropped Off";
            description := Data.personA data ++ " drops off with " ++ Data.personB data;
            timestamp := None;
            completed := false |};
         {| stage := "collected";
            title := "Item Collected";
            description := Data.personC data ++ " collects from " ++ Data.personB data;
            timestamp := None;
            completed := false |} ] |}.

(** Returns [{ fulfillment, password }] and the next store. *)
Definition createFulfillment (data : Data.t) (env : Environment) (st : Store)
  : (Fulfillment * string) * Store :=
  let password := generatePassword (pinRandom env) in
  let hash := hashPassword password in
  let created := newFulfillment data env hash in
  let st1 := setFulfillments (created :: fulfillments st) st in   (* unshift *)
  ((created, password), notify (saveToStorage st1)).

Definition getFulfillment (wanted : string) (st : Store) : option Fulfillment :=
  find (hasId wanted) (fulfillments st).

(** The object found is modified where it is in the array. *)
Definition assign (wanted : string) (updated : Fulfillment) (st : Store) : Store :=
  setFulfillments (updateFirst (hasId wanted) (fun _ => updated) (fulfillments st)) st.

(** [fulfillment.status = 'in-transit'; fulfillment.qrCodeUsed = true;]
    then the stage ['dropped-off'] is completed at [now]. *)
Definition droppedOff (now : string) (f : Fulfillment) : Fulfillment :=
  markStage "dropped-off" now (setQrCodeUsed true (setStatus "in-transit" f)).

Definition updateStatusViaQR (wanted now : string) (st : Store) : Result * Store :=
  match find (hasId wanted) (fulfillments st) with
  | None => (NotFound, st)
  | Some found =>
      if qrCodeUsed found then (TokenAlreadyUsed, st)
      else if negb (String.eqb (status found) "pending") then (InvalidStateNotPending, st)
      else
        let updated := droppedOff now found in
        (mkResult true "Item receipt confirmed!" (Some updated),
         notify (saveToStorage (assign wanted updated st)))
  end.

(** [fulfillment.status = 'completed'; fulfillment.passwordUsed = true;]
    then the stage ['collected'] is completed at [now]. *)
Definition collected (now : string) (f : Fulfillment) : Fulfillment :=
  markStage "collected" now (setPasswordUsed true (setStatus "completed" f)).

Definition validateAndCollect (wanted password now : string) (st : Store)
  : Result * Store :=
  match find (hasId wanted) (fulfillments st) with
  | None => (NotFound, st)
  | Some found =>
      if passwordUsed found then (SecretAlreadyUsed, st)
      else if negb (String.eqb (status found) "in-transit") then (InvalidStateNotDroppedOff, st)
      else
        let providedHash := hashPassword password in
        if negb (String.eqb providedHash (passwordHash found)) then (SecretMismatch, st)
        else
          let updated := collected now found in
          (mkResult true "Item collected successfully!" (Some updated),
           notify (saveToStorage (assign wanted updated st)))
  end.

(** The timeline stage [updateStatus] completes for a new status. *)
Definition stageOfStatus (newStatus : string) : option string :=
  if String.eqb newStatus "in-transit" then Some "dropped-off"
  else if String.eqb newStatus "completed" then Some "collected"
  else None.

(** [fulfillment.status = newStatus;] then the stage of the new status, if
    it has one, is completed at [now]. *)
Definition advanced (newStatus now : string) (f : Fulfillment) : Fulfillment :=
  let renamed := setStatus newStatus f in
  match stageOfStatus newStatus with
  | Some name => markStage name now renamed
  | None => renamed
  end.

(** [updateStatus] returns [undefined] on every path: [tt]. *)
Definition updateStatus (wanted newStatus now : string) (st : Store) : unit * Store :=
  match find (hasId wanted) (fulfillments st) with
  | None => (tt, st)
  | Some found =>
      let updated := advanced newStatus now found in
      (tt, notify (saveToStorage (assign wanted updated st)))
  end.

Definition deleteFulfillment (wanted : string) (st : Store) : Store :=
  notify (saveToStorage
    (setFulfillments (filter (fun f => negb (hasId wanted f)) (fulfillments st)) st)).

(** ** The handlers of [UIController] that feed the checkpoints *)

(** [handleScannerSubmit]: the field value is trimmed and upper-cased, then
    given to [updateStatusViaQR]. *)
Definition handleScannerSubmit (input now : string) (st : Store) : Result * Store :=
  let code := toUpperCase (trim input) in
  updateStatusViaQR code now st.

(** [handleCollectionSubmit]: both field values are trimmed. *)
Definition handleCollectionSubmit (idInput passwordInput now : string) (st : Store)
  : Result * Store :=
  validateAndCollect (trim idInput) (trim passwordInput) now st.

(** ** Runs of the store *)

Inductive Call : Type :=
| CreateFulfillment (data : Data.t) (env : Environment)
| UpdateStatusViaQR (wanted now : string)
| ValidateAndCollect (wanted password now : string)
| UpdateStatus (wanted newStatus now : string)
| DeleteFulfillment (wanted : string).

Definition exec (c : Call) (st : Store) : Store :=
  match c with
  | CreateFulfillment data env => snd (createFulfillment data env st)
  | UpdateStatusViaQR wanted now => snd (updateStatusViaQR wanted now st)
  | ValidateAndCollect wanted password now => snd (validateAndCollect wanted password now st)
  | UpdateStatus wanted newStatus now => snd (updateStatus wanted newStatus now st)
  | DeleteFulfillment wanted => deleteFulfillment wanted st
  end.

Definition run (calls : list Call) (st : Store) : Store :=
  fold_left (fun s c => exec c s) calls st.

(** The stores that calls satisfying [allowed] lead to from the empty one. *)
Inductive Reachable (allowed : Store -> Call -> Prop) : Store -> Prop :=
| ReachableEmpty : Reachable allowed emptyStore
| ReachableStep : forall st c,
    Reachable allowed st -> allowed st c -> Reachable allowed (exec c st).

Definition anyCall (_ : Store) (_ : Call) : Prop := True.



(** A timeline after the stage [name] was marked at [now], against the
    timeline before: the first stage of that name, if there is one, has
    [completed = true] and [timestamp = now] and keeps its title and
    description; every other stage, a later stage of the same name
    included, is as it was. *)
Definition marksOnly (name now : string) (old new : list TimelineStage) : Prop :=
  (~ In name (map stage old) /\ new = old)
  \/ exists before t after,
       old = (before ++ t :: after)%list
       /\ stage t = name
       /\ ~ In name (map stage before)
       /\ new = (before
                 ++ {| stage := name;
                       title := title t;
                       description := description t;
                       timestamp := Some now;
                       completed := true |} :: after)%list.

(** The timeline of the data model: the three stages, in order. *)
Definition threeStages (f : Fulfillment) : Prop :=
  map stage (timeline f) = ["created"; "dropped-off"; "collected"].

(** The invariant of the data model on one record. *)
Definition consistent (f : Fulfillment) : Prop :=
  (qrCodeUsed f = true -> status f = "in-transit" \/ status f = "completed")
  /\ (passwordUsed f = true -> status f = "completed").

(** An [updateStatus] call agrees with the flags of the record it finds. *)
Definition agreesWithFlags (newStatus : string) (f : Fulfillment) : Prop :=
  (qrCodeUsed f = true -> newStatus = "in-transit" \/ newStatus = "completed")
  /\ (passwordUsed f = true -> newStatus = "completed").

Definition flagRespecting (st : Store) (c : Call) : Prop :=
  match c with
  | UpdateStatus wanted newStatus _ =>
      forall f, getFulfillment wanted st = Some f -> agreesWithFlags newStatus f
  | _ => True
  end.

(** ** A scenario: create("Laptop", "Alice", "Bob", "Carol") *)

Definition sampleData : Data.t := Data.mk "Laptop" "Alice" "Bob" "Carol".

Definition sampleEnvironment : Environment :=
  {| pinRandom := Double.mk 3834798437912163 (-53);
     idClock := 1730550000000;
     idRandomDigits := [20; 7; 33; 0; 15; 9; 28; 4; 11; 30; 2]%N;
     createdAtClock := "2024-11-02T12:20:00.000Z";
     createdStageClock := "2024-11-02T12:20:00.001Z" |}.

Definition sampleId : string := "FUL-M304SDXC-K7X0F".
Definition samplePin : string := "483173".
Definition sampleDropTime : string := "2024-11-02T13:05:00.000Z".
Definition sampleCollectTime : string := "2024-11-02T17:40:00.000Z".

Definition sampleRecord : Fulfillment :=
  newFulfillment sampleData sampleEnvironment (hashPassword samplePin).

Definition samplePending : Store :=
  exec (CreateFulfillment sampleData sampleEnvironment) emptyStore.
Definition sampleInTransit : Store :=
  exec (UpdateStatusViaQR sampleId sampleDropTime) samplePending.
Definition sampleCompleted : Store :=
  exec (ValidateAndCollect sampleId samplePin sampleCollectTime) sampleInTransit.

(** The same with the card button "Drop Off" in place of the scanner. *)
Definition sampleByButton : Store :=
  exec (ValidateAndCollect sampleId samplePin sampleCollectTime)
    (exec (UpdateStatus sampleId "in-transit" sampleDropTime) samplePending).

(** ** Equality of a typed code and a token up to white space and case *)

Definition isUpper (c : ascii) : bool := ((65 <=? code c) && (code c <=? 90))%N.

(** The same character, or the two cases of one letter. *)
Definition sameLetter (a b : ascii) : bool :=
  ((code a =? code b)
   || (isUpper a && (code b =? code a + 32))
   || (isUpper b && (code a =? code b + 32)))%N.

Fixpoint equalIgnoringCase (a b : string) : bool :=
  match a, b with
  | EmptyString, EmptyString => true
  | String x a', String y b' => sameLetter x y && equalIgnoringCase a' b'
  | _, _ => false
  end.

Fixpoint allWhiteSpace (s : string) : bool :=
  match s with
  | EmptyString => true
  | String c r => isWhiteSpace c && allWhiteSpace r
  end.

(** [input] is [token] written in any letter case, between white space. *)
Definition matchesToken (input token : string) : Prop :=
  exists before body after,
    input = before ++ body ++ after
    /\ allWhiteSpace before = true
    /\ allWhiteSpace after = true
    /\ equalIgnoringCase body token = true.

(** Strings with no white space at all, at their start, at their end. *)
Fixpoint noWhiteSpace (s : string) : bool :=
  match s with
  | EmptyString => true
  | String c r => negb (isWhiteSpace c) && noWhiteSpace r
  end.

Definition cleanStart (s : string) : bool :=
  match s with
  | EmptyString => true
  | String c _ => negb (isWhiteSpace c)
  end.

Fixpoint cleanEnd (s : string) : bool :=
  match s with
  | EmptyString => true
  | String c EmptyString => negb (isWhiteSpace c)
  | String _ r => cleanEnd r
  end.

(** An identifier that [trim] and [toUpperCase] leave as it is. *)
Definition tidy (s : string) : Prop :=
  toUpperCase s = s /\ cleanStart s = true /\ cleanEnd s = true.

(** The 256 characters. *)
Definition allAscii : list ascii := map ascii_of_nat (seq 0 256).

(** Two environments that differ at most in the draw of the PIN. *)
Definition sameApartFromPin (e1 e2 : Environment) : Prop :=
  idClock e1 = idClock e2
  /\ idRandomDigits e1 = idRandomDigits e2
  /\ createdAtClock e1 = createdAtClock e2
  /\ createdStageClock e1 = createdStageClock e2.

(** The scenario with another draw, which gives the same PIN. *)
Definition sampleEnvironment' : Environment :=
  {| pinRandom := Double.mk 3834798437912164 (-53);
     idClock := idClock sampleEnvironment;
     idRandomDigits := idRandomDigits sampleEnvironment;
     createdAtClock := createdAtClock sampleEnvironment;
     createdStageClock := createdStageClock sampleEnvironment |}.

(** ** More of [UIController]: what it shows and what its buttons do *)

(** U+00A0, NO-BREAK SPACE: the character of code 160. *)
Definition noBreakSpace : ascii := ascii_of_N 160.

(** [escapeHtml]: [div.textContent = text; return div.innerHTML], the
    serialisation of a text node, which writes [&amp;] for [&], [&nbsp;]
    for the no-break space, [&lt;] for [<], [&gt;] for [>], and every other
    character as it is. *)
Definition escapeChar (c : ascii) : string :=
  if (code c =? 38)%N then "&amp;"
  else if (code c =? 160)%N then "&nbsp;"
  else if (code c =? 60)%N then "&lt;"
  else if (code c =? 62)%N then "&gt;"
  else String c EmptyString.

Fixpoint escapeHtml (text : string) : string :=
  match text with
  | EmptyString => EmptyString
  | String c r => escapeChar c ++ escapeHtml r
  end.

(** What a browser reads back from such a text: the four entities stand
    for their characters. *)
Fixpoint unescapeHtml (html : string) : string :=
  match html with
  | String "&" (String "a" (String "m" (String "p" (String ";" r)))) =>
      String "&" (unescapeHtml r)
  | String "&" (String "n" (String "b" (String "s" (String "p" (String ";" r))))) =>
      String noBreakSpace (unescapeHtml r)
  | String "&" (String "l" (String "t" (String ";" r))) =>
      String "<" (unescapeHtml r)
  | String "&" (String "g" (String "t" (String ";" r))) =>
      String ">" (unescapeHtml r)
  | String c r => String c (unescapeHtml r)
  | EmptyString => EmptyString
  end.

Fixpoint noneOf (bad : ascii -> bool) (s : string) : bool :=
  match s with
  | EmptyString => true
  | String c r => negb (bad c) && noneOf bad r
  end.

Definition isAngle (c : ascii) : bool := ((code c =? 60) || (code c =? 62))%N.
(** The characters the serialisation rewrites. *)
Definition isEscaped (c : ascii) : bool :=
  ((code c =? 38) || (code c =? 160) || (code c =? 60) || (code c =? 62))%N.

(** [getTimeAgo(timestamp)], on the time values (milliseconds) of
    [new Date()] and [new Date(timestamp)], both valid dates.  On integers
    below [2 ^ 53] in absolute value [Math.floor(x / d)] is the floor of the
    exact quotient. *)
Definition showCount (n : Z) : string := toString (Z.to_N n).

Definition getTimeAgo (nowMs pastMs : Z) : string :=
  let diffMs := (nowMs - pastMs)%Z in
  let diffMins := (diffMs / 60000)%Z in
  let diffHours := (diffMs / 3600000)%Z in
  let diffDays := (diffMs / 86400000)%Z in
  if (diffMins <? 1)%Z then "Just now"
  else if (diffMins <? 60)%Z then
    showCount diffMins ++ " minute" ++ (if (1 <? diffMins)%Z then "s" else "") ++ " ago"
  else if (diffHours <? 24)%Z then
    showCount diffHours ++ " hour" ++ (if (1 <? diffHours)%Z then "s" else "") ++ " ago"
  else
    showCount diffDays ++ " day" ++ (if (1 <? diffDays)%Z then "s" else "") ++ " ago".

(** [isActiveStage(stage, status)]. *)
Definition isActiveStage (stageName statusName : string) : bool :=
  if String.eqb statusName "pending" && String.eqb stageName "dropped-off" then true
  else if String.eqb statusName "in-transit" && String.eqb stageName "collected" then true
  else false.

(** The two classes [renderTimelineItem] gives to an item:
    [completedClass] and [activeClass]. *)
Definition completedClass (item : TimelineStage) : string :=
  if completed item then "completed" else "".

Definition activeClass (item : TimelineStage) (f : Fulfillment) : string :=
  if negb (completed item) && isActiveStage (stage item) (status f)
  then "active" else "".

(** A button of a card, by its [data-action], its [data-id] and its
    caption. *)
Record Button : Type := mkButton
  { dataAction : string; dataId : string; caption : string }.

(** [renderCardActions(fulfillment)]: one button or none. *)
Definition renderCardActions (f : Fulfillment) : list Button :=
  if String.eqb (status f) "pending" then [mkButton "drop-off" (id f) "Drop Off"]
  else if String.eqb (status f) "in-transit" then [mkButton "collect" (id f) "Collect"]
  else [].

(** [handleAction(action, id)], as far as the store goes: the modals that
    ['view-qr'] and ['collect-item'] open are left out; [confirmed] is the
    answer to the [confirm] dialog of ['delete']. *)
Definition handleAction (action wanted now : string) (confirmed : bool) (st : Store)
  : Store :=
  if String.eqb action "view-qr" then st
  else if String.eqb action "drop-off" then snd (updateStatus wanted "in-transit" now st)
  else if String.eqb action "collect-item" then st
  else if String.eqb action "collect" then snd (updateStatus wanted "completed" now st)
  else if String.eqb action "delete" then
    if confirmed then deleteFulfillment wanted st else st
  else st.


(** ** Properties of runs *)

(** A call that moves no record backwards: [updateStatus] as the card
    buttons issue it, to ['in-transit'] on a pending record and to
    ['completed'] on a record in transit. *)
Definition forwardOnly (st : Store) (c : Call) : Prop :=
  match c with
  | UpdateStatus wanted newStatus _ =>
      forall f, getFulfillment wanted st = Some f ->
        (status f = "pending" /\ newStatus = "in-transit")
        \/ (status f = "in-transit" /\ newStatus = "completed")
  | _ => True
  end.

(** Status and timeline in step: the stages completed are those the
    status has passed, and a stage has a timestamp when it is completed. *)
Definition progress (f : Fulfillment) : list (string * bool) :=
  map (fun t => (stage t, completed t)) (timeline f).

Definition stamped (t : TimelineStage) : Prop :=
  completed t = true <-> timestamp t <> None.

Definition inStep (f : Fulfillment) : Prop :=
  Forall stamped (timeline f)
  /\ ((status f = "pending"
       /\ progress f = [("created", true); ("dropped-off", false); ("collected", false)])
      \/ (status f = "in-transit"
          /\ progress f = [("created", true); ("dropped-off", true); ("collected", false)])
      \/ (status f = "completed"
          /\ progress f = [("created", true); ("dropped-off", true); ("collected", true)])).

(** A later state of a record: what is fixed at creation is the same, a
    flag once set is set, a stage once completed is completed. *)
Definition stageEvolves (old new : TimelineStage) : Prop :=
  stage new = stage old /\ title new = title old /\ description new = description old
  /\ (completed old = true -> completed new = true).

Definition evolves (old new : Fulfillment) : Prop :=
  id new = id old
  /\ itemName new = itemName old
  /\ personA new = personA old
  /\ personB new = personB old
  /\ personC new = personC old
  /\ passwordHash new = passwordHash old
  /\ createdAt new = createdAt old
  /\ (qrCodeUsed old = true -> qrCodeUsed new = true)
  /\ (passwordUsed old = true -> passwordUsed new = true)
  /\ Forall2 stageEvolves (timeline old) (timeline new).

(** The record a [createFulfillment] call of a run makes. *)
Definition createdBy (c : Call) : option Fulfillment :=
  match c with
  | CreateFulfillment data env => Some (fst (fst (createFulfillment data env emptyStore)))
  | _ => None
  end.


(** The characters of an identifier: digits, capital letters, the hyphen. *)
Definition isIdChar (c : ascii) : bool :=
  (isDigit c || isUpper c || (code c =? 45))%N.

Definition isHexChar (c : ascii) : bool :=
  (isDigit c || ((97 <=? code c) && (code c <=? 102)))%N.

Fixpoint allOf (good : ascii -> bool) (s : string) : bool :=
  match s with
  | EmptyString => true
  | String c r => good c && allOf good r
  end.

(* ================================================================== *)
(** * Part II. Properties *)
(* ================================================================== *)

(** ** The embedding on known values *)

(** The test vectors of FIPS 180-4 (one block, the empty message, two
    blocks) and the PIN of the scenario. *)
Example sha256_abc :
  hashPassword "abc" = "ba7816bf8f01cfea414140de5dae2223b00361a396177a9cb410ff61f20015ad".
Proof. vm_compute. reflexivity. Qed.

Example sha256_empty :
  hashPassword "" = "e3b0c44298fc1c149afbf4c8996fb92427ae41e4649b934ca495991b7852b855".
Proof. vm_compute. reflexivity. Qed.

Example sha256_two_blocks :
  hashPassword "abcdbcdecdefdefgefghfghighijhijkijkljklmklmnlmnomnopnopq"
  = "248d6a61d20638b8e5c026930c3e6039a33ce45964ff2167f6ecedd419db06c1".
Proof. vm_compute. reflexivity. Qed.

Example sha256_pin :
  hashPassword "483173" = "4117c3782531eb00dab7f80d6ccf5485172913fd627c1a695ba3f699603a0bc7".
Proof. vm_compute. reflexivity. Qed.

(** The extreme draws of [Math.random()]: zero, the smallest positive
    double, the largest double below one. *)
Example generatePassword_extremes :
  generatePassword (Double.mk 0 (-53)) = "100000"
  /\ generatePassword (Double.mk 1 (-1074)) = "100000"
  /\ generatePassword (Double.mk (2 ^ 53 - 1) (-53)) = "999999"
  /\ generatePassword (pinRandom sampleEnvironment) = "483173".
Proof. repeat split; vm_compute; reflexivity. Qed.

Example generateId_sample :
  generateId (idClock sampleEnvironment) (idRandomDigits sampleEnvironment) = sampleId
  /\ generateId 0 [] = "FUL-0-".
Proof. split; vm_compute; reflexivity. Qed.

Example trim_toUpperCase_sample :
  toUpperCase (trim "  ful-m304sdxc-K7x0f ") = "FUL-M304SDXC-K7X0F".
Proof. vm_compute. reflexivity. Qed.

Example parse_samples :
  Json.parse "[]" = Some (Json.Array [])
  /\ Json.parse " [ true , null,[-1.5e3] ] "
     = Some (Json.Array [Json.Bool true; Json.Null; Json.Array [Json.Number "-1.5e3"]])
  /\ Json.parse "{}" = Some (Json.Object [])
  /\ Json.parse "{" = None
  /\ Json.parse "[1,]" = None
  /\ Json.parse "01" = None
  /\ Json.parse "nul" = None
  /\ Json.parse "[] []" = None
  /\ Json.parse " " = None.
Proof. repeat split; vm_compute; reflexivity. Qed.

(** ** Lists: [find] and the update in place *)

Section FindUpdate.
Context {A : Type}.
Variables (p : A -> bool).

Lemma find_none_updateFirst (g : A -> A) (xs : list A) :
  find p xs = None -> updateFirst p g xs = xs.
Proof.
  induction xs as [|x rest IH]; simpl; [reflexivity|].
  destruct (p x); [discriminate|]. intros H. now rewrite IH.
Qed.

(** The object that is assigned to is the one [find] returned. *)
Lemma updateFirst_found (h : A -> A) (xs : list A) (x : A) :
  find p xs = Some x ->
  updateFirst p (fun _ => h x) xs = updateFirst p h xs.
Proof.
  induction xs as [|y rest IH]; simpl; [discriminate|].
  destruct (p y).
  - intros [= ->]. reflexivity.
  - intros H. now rewrite IH.
Qed.

Lemma find_updateFirst_same (g : A -> A) (xs : list A) (x : A) :
  find p xs = Some x -> p (g x) = true ->
  find p (updateFirst p g xs) = Some (g x).
Proof.
  induction xs as [|y rest IH]; simpl; [discriminate|].
  destruct (p y) eqn:Hy.
  - intros [= ->] Hg. simpl. now rewrite Hg.
  - intros H Hg. simpl. rewrite Hy. now apply IH.
Qed.


Lemma Forall_updateFirst (P : A -> Prop) (g : A -> A) (xs : list A) (x : A) :
  find p xs = Some x -> (P x -> P (g x)) ->
  Forall P xs -> Forall P (updateFirst p g xs).
Proof.
  induction xs as [|y rest IH]; simpl; intros Hf Hg Hall; [constructor|].
  inversion Hall as [|? ? Py Prest]; subst.
  destruct (p y) eqn:Hp; constructor; auto.
  injection Hf as ->. auto.
Qed.

End FindUpdate.

Lemma hasId_true (wanted : string) (f : Fulfillment) :
  hasId wanted f = true <-> id f = wanted.
Proof. unfold hasId. apply String.eqb_eq. Qed.

Lemma getFulfillment_id (wanted : string) (st : Store) (f : Fulfillment) :
  getFulfillment wanted st = Some f -> id f = wanted /\ In f (fulfillments st).
Proof.
  unfold getFulfillment. intros H. apply find_some in H as [Hin Hid].
  split; [now apply hasId_true | exact Hin].
Qed.

(** ** Checkpoints that refuse *)

(** C3: on an in-transit record whose password is unused, a secret whose
    hash differs from the stored hash is refused with [SecretMismatch]
    ("Incorrect password"), and the store (collection, persisted text,
    notifications) is the one before the call: the record keeps its status,
    flags and timeline. *)
Theorem wrong_secret_is_refused (st : Store) (wanted password now : string)
    (found : Fulfillment) :
  getFulfillment wanted st = Some found ->
  status found = "in-transit" ->
  passwordUsed found = false ->
  hashPassword password <> passwordHash found ->
  validateAndCollect wanted password now st = (SecretMismatch, st)
  /\ getFulfillment wanted (snd (validateAndCollect wanted password now st)) = Some found.
Proof.
  intros Hfind Hstatus Hused Hhash.
  assert (E : validateAndCollect wanted password now st = (SecretMismatch, st)).
  { unfold validateAndCollect. unfold getFulfillment in Hfind.
    apply String.eqb_neq in Hhash.
    rewrite Hfind, Hused, Hstatus, Hhash. reflexivity. }
  rewrite E. split; [reflexivity | exact Hfind].
Qed.

(** C4: on a pending record whose password is unused, [validateAndCollect]
    with any secret is refused with the invalid-state error ("Item has not
    been dropped off yet") and the record is still pending. *)
Theorem collect_before_drop_off_is_refused (st : Store) (wanted password now : string)
    (found : Fulfillment) :
  getFulfillment wanted st = Some found ->
  status found = "pending" ->
  passwordUsed found = false ->
  validateAndCollect wanted password now st = (InvalidStateNotDroppedOff, st)
  /\ option_map status
       (getFulfillment wanted (snd (validateAndCollect wanted password now st)))
     = Some "pending".
Proof.
  intros Hfind Hstatus Hused.
  assert (E : validateAndCollect wanted password now st = (InvalidStateNotDroppedOff, st)).
  { unfold validateAndCollect. unfold getFulfillment in Hfind.
    rewrite Hfind, Hused, Hstatus. reflexivity. }
  rewrite E. split; [reflexivity|].
  cbn [snd]. rewrite Hfind. cbn [option_map]. rewrite Hstatus. reflexivity.
Qed.

(** C10: with an id that matches no record, [updateStatus] returns
    [undefined] and leaves the store as it was (same collection, no write to
    [localStorage], no call to the listeners), whereas the two checkpoint
    methods answer with the [NotFound] failure. *)
Theorem updateStatus_unknown_id_is_silent (st : Store)
    (wanted newStatus password now : string) :
  getFulfillment wanted st = None ->
  updateStatus wanted newStatus now st = (tt, st)
  /\ updateStatusViaQR wanted now st = (NotFound, st)
  /\ validateAndCollect wanted password now st = (NotFound, st)
  /\ success NotFound = false.
Proof.
  unfold getFulfillment, updateStatus, updateStatusViaQR, validateAndCollect.
  intros ->. repeat split.
Qed.

(** ** What a call does to the collection *)

Lemma fulfillments_saved (fs : list Fulfillment) (st : Store) :
  fulfillments (notify (saveToStorage (setFulfillments fs st))) = fs.
Proof. reflexivity. Qed.

Lemma fulfillments_assigned (wanted : string) (h : Fulfillment -> Fulfillment)
    (found : Fulfillment) (st : Store) :
  find (hasId wanted) (fulfillments st) = Some found ->
  fulfillments (notify (saveToStorage (assign wanted (h found) st)))
  = updateFirst (hasId wanted) h (fulfillments st).
Proof.
  intros H. unfold assign. rewrite fulfillments_saved.
  now apply updateFirst_found.
Qed.

Lemma updateStatusViaQR_collection (wanted now : string) (st : Store) :
  fulfillments (snd (updateStatusViaQR wanted now st)) = fulfillments st
  \/ exists found,
       find (hasId wanted) (fulfillments st) = Some found
       /\ qrCodeUsed found = false /\ status found = "pending"
       /\ fulfillments (snd (updateStatusViaQR wanted now st))
          = updateFirst (hasId wanted) (droppedOff now) (fulfillments st).
Proof.
  unfold updateStatusViaQR.
  destruct (find (hasId wanted) (fulfillments st)) as [found|] eqn:Hf; [|now left].
  destruct (qrCodeUsed found) eqn:Hq; [now left|].
  destruct (String.eqb (status found) "pending") eqn:Hs; [|now left].
  right. exists found. apply String.eqb_eq in Hs.
  repeat split; auto. cbn [negb snd]. now apply fulfillments_assigned.
Qed.

Lemma validateAndCollect_collection (wanted password now : string) (st : Store) :
  fulfillments (snd (validateAndCollect wanted password now st)) = fulfillments st
  \/ exists found,
       find (hasId wanted) (fulfillments st) = Some found
       /\ passwordUsed found = false /\ status found = "in-transit"
       /\ hashPassword password = passwordHash found
       /\ fulfillments (snd (validateAndCollect wanted password now st))
          = updateFirst (hasId wanted) (collected now) (fulfillments st).
Proof.
  unfold validateAndCollect.
  destruct (find (hasId wanted) (fulfillments st)) as [found|] eqn:Hf; [|now left].
  destruct (passwordUsed found) eqn:Hq; [now left|].
  destruct (String.eqb (status found) "in-transit") eqn:Hs; [|now left].
  destruct (String.eqb (hashPassword password) (passwordHash found)) eqn:Hh; [|now left].
  right. exists found. apply String.eqb_eq in Hs, Hh.
  repeat split; auto. cbn [negb snd]. now apply fulfillments_assigned.
Qed.

Lemma updateStatus_collection (wanted newStatus now : string) (st : Store) :
  match find (hasId wanted) (fulfillments st) with
  | None => fulfillments (snd (updateStatus wanted newStatus now st)) = fulfillments st
  | Some _ =>
      fulfillments (snd (updateStatus wanted newStatus now st))
      = updateFirst (hasId wanted) (advanced newStatus now) (fulfillments st)
  end.
Proof.
  unfold updateStatus.
  destruct (find (hasId wanted) (fulfillments st)) as [found|] eqn:Hf; [|reflexivity].
  cbn [snd]. now apply fulfillments_assigned.
Qed.

(** The transitions keep the identity of a record. *)
Lemma id_droppedOff (now : string) (f : Fulfillment) : id (droppedOff now f) = id f.
Proof. reflexivity. Qed.
Lemma id_collected (now : string) (f : Fulfillment) : id (collected now f) = id f.
Proof. reflexivity. Qed.
Lemma id_advanced (newStatus now : string) (f : Fulfillment) :
  id (advanced newStatus now f) = id f.
Proof. unfold advanced. now destruct (stageOfStatus newStatus). Qed.

Lemma find_filter_other (wanted w : string) (fs : list Fulfillment) :
  w <> wanted ->
  find (hasId wanted) (filter (fun f => negb (hasId w f)) fs) = find (hasId wanted) fs.
Proof.
  intros Hne. induction fs as [|f rest IH]; simpl; [reflexivity|].
  destruct (hasId w f) eqn:Hw; simpl.
  - apply hasId_true in Hw. destruct (hasId wanted f) eqn:Hx; [|exact IH].
    apply hasId_true in Hx. congruence.
  - now rewrite IH.
Qed.

(** ** The drop-off checkpoint *)







(** ** The unchecked advance *)

Lemma updateFirst_marksOnly (name now : string) (tl : list TimelineStage) :
  marksOnly name now tl (updateFirst (isStage name) (completeStage now) tl).
Proof.
  induction tl as [|t rest IH]; cbn [updateFirst].
  - left. split; [intros [] | reflexivity].
  - destruct (isStage name t) eqn:Hn; unfold isStage in Hn.
    + apply String.eqb_eq in Hn. right. exists [], t, rest.
      split; [reflexivity|]. split; [exact Hn|]. split; [intros []|].
      unfold completeStage. now rewrite Hn.
    + apply String.eqb_neq in Hn.
      destruct IH as [[Hno ->] | (before & t0 & after & -> & Hs & Hno & ->)].
      * left. split; [|reflexivity]. intros [E|H]; [exact (Hn E) | exact (Hno H)].
      * right. exists (t :: before), t0, after.
        split; [reflexivity|]. split; [exact Hs|]. split; [|reflexivity].
        intros [E|H]; [exact (Hn E) | exact (Hno H)].
Qed.

(** C8: on an existing record and for any new status, [updateStatus] sets
    [status] to the new status.  Of the timeline: for ['in-transit'] the
    first stage named ['dropped-off'], for ['completed'] the first stage
    named ['collected'], has [completed = true] and [timestamp = now]
    afterwards, with its name, title and description kept, and every other
    stage is as it was; for any other status the timeline is as it was.
    [qrCodeUsed], [passwordUsed], [id], the names, [passwordHash] and
    [createdAt] are unchanged. *)
Theorem updateStatus_frame (st : Store) (wanted newStatus now : string)
    (found : Fulfillment) :
  getFulfillment wanted st = Some found ->
  exists updated,
    getFulfillment wanted (snd (updateStatus wanted newStatus now st)) = Some updated
    /\ status updated = newStatus
    /\ qrCodeUsed updated = qrCodeUsed found
    /\ passwordUsed updated = passwordUsed found
    /\ id updated = id found
    /\ itemName updated = itemName found
    /\ personA updated = personA found
    /\ personB updated = personB found
    /\ personC updated = personC found
    /\ passwordHash updated = passwordHash found
    /\ createdAt updated = createdAt found
    /\ ((newStatus = "in-transit"
         /\ marksOnly "dropped-off" now (timeline found) (timeline updated))
        \/ (newStatus = "completed"
            /\ marksOnly "collected" now (timeline found) (timeline updated))
        \/ (newStatus <> "in-transit" /\ newStatus <> "completed"
            /\ timeline updated = timeline found)).
Proof.
  intros Hfind. unfold getFulfillment in *.
  assert (Hid : hasId wanted found = true) by (apply find_some in Hfind; tauto).
  exists (advanced newStatus now found).
  pose proof (updateStatus_collection wanted newStatus now st) as Hc.
  rewrite Hfind in Hc. rewrite Hc. split.
  { apply find_updateFirst_same; [exact Hfind|].
    unfold hasId in *. now rewrite id_advanced. }
  unfold advanced, stageOfStatus.
  destruct (String.eqb_spec newStatus "in-transit") as [E1|N1];
    [|destruct (String.eqb_spec newStatus "completed") as [E2|N2]];
    cbn [markStage setTimeline setStatus status qrCodeUsed passwordUsed id itemName
         personA personB personC passwordHash createdAt timeline];
    do 10 (split; [reflexivity|]).
  - left. split; [exact E1 | apply updateFirst_marksOnly].
  - right; left. split; [exact E2 | apply updateFirst_marksOnly].
  - right; right. now repeat split.
Qed.

(** ** Runs and the consistency of status and flags *)

Lemma Reachable_run (allowed : Store -> Call -> Prop) (calls : list Call) (st : Store) :
  Reachable allowed st ->
  (forall s c, allowed s c) ->
  Reachable allowed (run calls st).
Proof.
  intros Hst Hall. unfold run. revert st Hst.
  induction calls as [|c rest IH]; intros st Hst; [exact Hst|].
  cbn [fold_left]. apply IH. now constructor.
Qed.

Lemma consistent_new (data : Data.t) (env : Environment) (hash : string) :
  consistent (newFulfillment data env hash).
Proof. split; cbn; discriminate. Qed.

Lemma consistent_droppedOff (now : string) (f : Fulfillment) :
  status f = "pending" -> consistent f -> consistent (droppedOff now f).
Proof.
  intros Hs [_ Hp]. split; cbn; [now left|].
  intros Hu. apply Hp in Hu. congruence.
Qed.

Lemma consistent_collected (now : string) (f : Fulfillment) :
  consistent (collected now f).
Proof. split; cbn; auto. Qed.

Lemma consistent_advanced (newStatus now : string) (f : Fulfillment) :
  agreesWithFlags newStatus f -> consistent (advanced newStatus now f).
Proof.
  unfold advanced, agreesWithFlags, consistent.
  now destruct (stageOfStatus newStatus).
Qed.

Lemma consistent_exec (c : Call) (st : Store) :
  flagRespecting st c ->
  Forall consistent (fulfillments st) ->
  Forall consistent (fulfillments (exec c st)).
Proof.
  intros Hc Hst.
  destruct c as [data env|w now|w pw now|w s now|w]; cbn [exec].
  - cbn [createFulfillment snd]. rewrite fulfillments_saved.
    constructor; [apply consistent_new | exact Hst].
  - destruct (updateStatusViaQR_collection w now st)
      as [-> | (found & Hf & _ & Hs & ->)]; [exact Hst|].
    apply (Forall_updateFirst _ _ _ _ found); auto using consistent_droppedOff.
  - destruct (validateAndCollect_collection w pw now st)
      as [-> | (found & Hf & _ & _ & _ & ->)]; [exact Hst|].
    apply (Forall_updateFirst _ _ _ _ found); auto using consistent_collected.
  - pose proof (updateStatus_collection w s now st) as H.
    destruct (find (hasId w) (fulfillments st)) as [found|] eqn:Hf;
      rewrite H; [|exact Hst].
    apply (Forall_updateFirst _ _ _ _ found); auto.
    intros _. apply consistent_advanced. now apply Hc.
  - unfold deleteFulfillment. rewrite fulfillments_saved.
    apply Forall_forall. intros f Hin. apply filter_In in Hin as [Hin _].
    rewrite Forall_forall in Hst. auto.
Qed.

(** C1, as the code has it: in every store reached from the empty one by
    [createFulfillment], [updateStatusViaQR], [validateAndCollect],
    [deleteFulfillment], and by those [updateStatus] calls whose new status
    agrees with the flags of the record they find, every record with
    [qrCodeUsed] set is in transit or completed and every record with
    [passwordUsed] set is completed. *)
Theorem flags_consistent_with_status (st : Store) :
  Reachable flagRespecting st -> Forall consistent (fulfillments st).
Proof.
  induction 1 as [|st c _ IH Hc]; [constructor|].
  now apply consistent_exec.
Qed.

(** The forward moves of the card buttons ('in-transit' on a pending
    record, 'completed' on a record in transit) agree with the flags of a
    consistent record. *)
Lemma forward_move_agrees (newStatus : string) (f : Fulfillment) :
  consistent f ->
  (status f = "pending" /\ newStatus = "in-transit")
  \/ (status f = "in-transit" /\ newStatus = "completed") ->
  agreesWithFlags newStatus f.
Proof.
  intros [Hq Hp] [[Hs ->]|[Hs ->]]; split; auto.
  intros Hu. apply Hp in Hu. congruence.
Qed.

(** ** The scenario, step by step *)

Lemma samplePending_record : getFulfillment sampleId samplePending = Some sampleRecord.
Proof. vm_compute. reflexivity. Qed.

Lemma sampleInTransit_record :
  getFulfillment sampleId sampleInTransit = Some (droppedOff sampleDropTime sampleRecord).
Proof. vm_compute. reflexivity. Qed.

Lemma sampleCompleted_record :
  getFulfillment sampleId sampleCompleted
  = Some (collected sampleCollectTime (droppedOff sampleDropTime sampleRecord)).
Proof. vm_compute. reflexivity. Qed.

Lemma sampleCompleted_reachable : Reachable flagRespecting sampleCompleted.
Proof. repeat (constructor; try exact I). Qed.

Lemma wrong_secret_is_refused_witness :
  let found := droppedOff sampleDropTime sampleRecord in
  getFulfillment sampleId sampleInTransit = Some found
  /\ status found = "in-transit"
  /\ passwordUsed found = false
  /\ hashPassword "000000" <> passwordHash found
  /\ validateAndCollect sampleId "000000" sampleCollectTime sampleInTransit
     = (SecretMismatch, sampleInTransit).
Proof.
  intros found.
  assert (H1 : getFulfillment sampleId sampleInTransit = Some found)
    by exact sampleInTransit_record.
  assert (H2 : status found = "in-transit") by reflexivity.
  assert (H3 : passwordUsed found = false) by reflexivity.
  assert (H4 : hashPassword "000000" <> passwordHash found)
    by (vm_compute; discriminate).
  exact (conj H1 (conj H2 (conj H3 (conj H4
           (proj1 (wrong_secret_is_refused sampleInTransit sampleId "000000"
                     sampleCollectTime found H1 H2 H3 H4)))))).
Defined.

Lemma collect_before_drop_off_is_refused_witness :
  getFulfillment sampleId samplePending = Some sampleRecord
  /\ status sampleRecord = "pending"
  /\ passwordUsed sampleRecord = false
  /\ validateAndCollect sampleId samplePin sampleCollectTime samplePending
     = (InvalidStateNotDroppedOff, samplePending).
Proof.
  assert (H1 : getFulfillment sampleId samplePending = Some sampleRecord)
    by exact samplePending_record.
  exact (conj H1 (conj eq_refl (conj eq_refl
           (proj1 (collect_before_drop_off_is_refused samplePending sampleId samplePin
                     sampleCollectTime sampleRecord H1 eq_refl eq_refl))))).
Defined.

Lemma updateStatus_unknown_id_is_silent_witness :
  getFulfillment "FUL-NOBODY-00000" samplePending = None
  /\ updateStatus "FUL-NOBODY-00000" "in-transit" sampleDropTime samplePending
     = (tt, samplePending).
Proof.
  assert (H1 : getFulfillment "FUL-NOBODY-00000" samplePending = None)
    by (vm_compute; reflexivity).
  split; [exact H1|].
  exact (proj1 (updateStatus_unknown_id_is_silent samplePending "FUL-NOBODY-00000"
                  "in-transit" samplePin sampleDropTime H1)).
Defined.


Lemma updateStatus_frame_witness :
  getFulfillment sampleId sampleInTransit = Some (droppedOff sampleDropTime sampleRecord)
  /\ exists updated,
       getFulfillment sampleId
         (snd (updateStatus sampleId "completed" sampleCollectTime sampleInTransit))
       = Some updated
       /\ status updated = "completed"
       /\ qrCodeUsed updated = true
       /\ passwordUsed updated = false
       /\ map (fun t => (stage t, completed t, timestamp t)) (timeline updated)
          = [ ("created", true, Some (createdStageClock sampleEnvironment));
              ("dropped-off", true, Some sampleDropTime);
              ("collected", true, Some sampleCollectTime) ].
Proof.
  split; [exact sampleInTransit_record|].
  destruct (updateStatus_frame sampleInTransit sampleId "completed" sampleCollectTime
              _ sampleInTransit_record)
    as (updated & H1 & H2 & H3 & H4 & _ & _ & _ & _ & _ & _ & _ & Hmark).
  exists updated. do 4 (split; [assumption|]).
  assert (Htl : timeline (droppedOff sampleDropTime sampleRecord)
                = [ mkStage "created" "Fulfillment Created" "Alice initiated the transfer"
                      (Some (createdStageClock sampleEnvironment)) true;
                    mkStage "dropped-off" "Item Dropped Off" "Alice drops off with Bob"
                      (Some sampleDropTime) true;
                    mkStage "collected" "Item Collected" "Carol collects from Bob"
                      None false ]) by (vm_compute; reflexivity).
  rewrite Htl in Hmark.
  destruct Hmark as [[E _] | [[_ M] | [_ [E _]]]];
    [discriminate E | | exfalso; exact (E eq_refl)].
  destruct M as [[Hno _] | (before & t & after & Hold & Hs & _ & ->)].
  - exfalso. apply Hno. right; right; left. reflexivity.
  - destruct before as [|b0 [|b1 [|b2 more]]]; cbn [app] in Hold.
    + injection Hold as <- _. discriminate Hs.
    + injection Hold as _ <- _. discriminate Hs.
    + injection Hold as <- <- <- <-. reflexivity.
    + injection Hold as _ _ _ Hold. destruct more; discriminate Hold.
Defined.

Lemma sampleByButton_reachable : Reachable flagRespecting sampleByButton.
Proof.
  unfold sampleByButton. constructor; [|exact I].
  constructor; [repeat (constructor; try exact I)|].
  intros f Hf. rewrite samplePending_record in Hf. injection Hf as <-.
  split; discriminate.
Qed.

Lemma flags_consistent_with_status_witness :
  Reachable flagRespecting sampleByButton
  /\ Forall consistent (fulfillments sampleByButton).
Proof.
  split; [exact sampleByButton_reachable|].
  exact (flags_consistent_with_status sampleByButton sampleByButton_reachable).
Defined.

(** C1 as stated fails: after the scenario has run to completion, the
    unchecked [updateStatus(id, 'in-transit')] puts a record whose
    [passwordUsed] is set back in transit. *)
Lemma unchecked_advance_breaks_consistency :
  ~ (forall st, Reachable anyCall st -> Forall consistent (fulfillments st)).
Proof.
  intros H.
  specialize (H (exec (UpdateStatus sampleId "in-transit" sampleCollectTime) sampleCompleted)).
  assert (R : Reachable anyCall
                (exec (UpdateStatus sampleId "in-transit" sampleCollectTime) sampleCompleted))
    by (repeat (constructor; try exact I)).
  apply H in R. vm_compute in R.
  inversion R as [|f rest [_ Hp] _]. specialize (Hp eq_refl). discriminate.
Qed.

(** ** Characters and strings *)

Lemma allAscii_complete (c : ascii) : In c allAscii.
Proof.
  unfold allAscii. rewrite <- (ascii_nat_embedding c).
  apply in_map, in_seq. pose proof (nat_ascii_bounded c). lia.
Qed.

Lemma forall_ascii (P : ascii -> bool) :
  forallb P allAscii = true -> forall c, P c = true.
Proof.
  intros H c. rewrite forallb_forall in H. apply H, allAscii_complete.
Qed.

Lemma forall_ascii2 (P : ascii -> ascii -> bool) :
  forallb (fun a => forallb (P a) allAscii) allAscii = true ->
  forall a b, P a b = true.
Proof.
  intros H a b. apply forall_ascii. revert a. now apply forall_ascii.
Qed.

Lemma upperChar_idempotent (c : ascii) : upperChar (upperChar c) = upperChar c.
Proof.
  apply Ascii.eqb_eq. revert c. apply forall_ascii. vm_compute. reflexivity.
Qed.

Lemma isWhiteSpace_upperChar (c : ascii) : isWhiteSpace (upperChar c) = isWhiteSpace c.
Proof.
  apply Bool.eqb_prop. revert c. apply forall_ascii. vm_compute. reflexivity.
Qed.

Lemma sameLetter_upperChar (a b : ascii) :
  sameLetter a b = true -> upperChar a = upperChar b.
Proof.
  intros H. apply Ascii.eqb_eq. revert H.
  enough (E : implb (sameLetter a b) (Ascii.eqb (upperChar a) (upperChar b)) = true)
    by (destruct (sameLetter a b); [intros _; exact E | discriminate]).
  revert a b. apply forall_ascii2. vm_compute. reflexivity.
Qed.

Lemma sameLetter_isWhiteSpace (a b : ascii) :
  sameLetter a b = true -> isWhiteSpace a = isWhiteSpace b.
Proof.
  intros H. apply Bool.eqb_prop. revert H.
  enough (E : implb (sameLetter a b) (Bool.eqb (isWhiteSpace a) (isWhiteSpace b)) = true)
    by (destruct (sameLetter a b); [intros _; exact E | discriminate]).
  revert a b. apply forall_ascii2. vm_compute. reflexivity.
Qed.

Lemma toUpperCase_app (s t : string) :
  toUpperCase (s ++ t) = toUpperCase s ++ toUpperCase t.
Proof. induction s as [|c r IH]; simpl; [reflexivity | now rewrite IH]. Qed.

Lemma toUpperCase_idempotent (s : string) : toUpperCase (toUpperCase s) = toUpperCase s.
Proof.
  induction s as [|c r IH]; simpl; [reflexivity|].
  now rewrite upperChar_idempotent, IH.
Qed.

Lemma equalIgnoringCase_toUpperCase (a b : string) :
  equalIgnoringCase a b = true -> toUpperCase a = toUpperCase b.
Proof.
  revert b. induction a as [|x a IH]; intros [|y b]; simpl; try discriminate; auto.
  intros H. apply andb_prop in H as [Hxy Hab].
  now rewrite (sameLetter_upperChar _ _ Hxy), (IH _ Hab).
Qed.

Lemma equalIgnoringCase_clean (a b : string) :
  equalIgnoringCase a b = true ->
  cleanStart a = cleanStart b /\ cleanEnd a = cleanEnd b /\ (a = EmptyString <-> b = EmptyString).
Proof.
  revert b. induction a as [|x a IH]; intros [|y b]; simpl; try discriminate.
  - intros _. repeat split; auto.
  - intros H. apply andb_prop in H as [Hxy Hab].
    pose proof (sameLetter_isWhiteSpace _ _ Hxy) as Hw.
    destruct (IH _ Hab) as (_ & He & Hn). rewrite Hw.
    repeat split; try discriminate.
    destruct a, b; auto.
    + destruct Hn as [Hn _]. specialize (Hn eq_refl). discriminate.
    + destruct Hn as [_ Hn]. specialize (Hn eq_refl). discriminate.
Qed.

Lemma trimStart_white (s : string) : allWhiteSpace s = true -> trimStart s = EmptyString.
Proof.
  induction s as [|c r IH]; simpl; [reflexivity|].
  intros H. apply andb_prop in H as [-> Hr]. auto.
Qed.

Lemma trimStart_app_white (w s : string) :
  allWhiteSpace w = true -> trimStart (w ++ s) = trimStart s.
Proof.
  induction w as [|c r IH]; simpl; [reflexivity|].
  intros H. apply andb_prop in H as [-> Hr]. auto.
Qed.

Lemma trimStart_clean (s : string) : cleanStart s = true -> trimStart s = s.
Proof.
  destruct s as [|c r]; simpl; [reflexivity|].
  now destruct (isWhiteSpace c).
Qed.

Lemma trimEnd_white (s : string) : allWhiteSpace s = true -> trimEnd s = EmptyString.
Proof.
  induction s as [|c r IH]; simpl; [reflexivity|].
  intros H. apply andb_prop in H as [-> Hr]. now rewrite IH.
Qed.

Lemma trimEnd_app_white (s w : string) :
  allWhiteSpace w = true -> trimEnd (s ++ w) = trimEnd s.
Proof.
  intros Hw. induction s as [|c r IH]; simpl; [now apply trimEnd_white|].
  now rewrite IH.
Qed.

Lemma trimEnd_clean (s : string) : cleanEnd s = true -> trimEnd s = s.
Proof.
  induction s as [|c r IH]; [reflexivity|].
  destruct r as [|d r'].
  - simpl. destruct (isWhiteSpace c); [discriminate | reflexivity].
  - intros H. change (cleanEnd (String d r') = true) in H.
    change (trimEnd (String c (String d r')))
      with (match trimEnd (String d r') with
            | EmptyString => if isWhiteSpace c then EmptyString else String c EmptyString
            | r0 => String c r0
            end).
    now rewrite (IH H).
Qed.

(** What [handleScannerSubmit] makes of a typed code. *)
Lemma normalised_token (input token : string) :
  tidy token -> matchesToken input token -> toUpperCase (trim input) = token.
Proof.
  intros (Hup & Hstart & Hend) (before & body & after & -> & Hb & Ha & Heq).
  destruct (equalIgnoringCase_clean _ _ Heq) as (Hs & He & Hn).
  rewrite <- Hs in Hstart. rewrite <- He in Hend.
  assert (Htrim : trim (before ++ body ++ after) = body).
  { unfold trim. rewrite trimStart_app_white by exact Hb.
    destruct body as [|c r].
    - simpl. now rewrite trimStart_white.
    - rewrite trimStart_clean by exact Hstart.
      rewrite trimEnd_app_white by exact Ha. now apply trimEnd_clean. }
  rewrite Htrim, (equalIgnoringCase_toUpperCase _ _ Heq). exact Hup.
Qed.

(** ** Identifiers *)

Lemma digitChar_not_white (d : N) : isWhiteSpace (digitChar (d mod 36)) = false.
Proof.
  assert (E : forall n : nat, n < 36 -> isWhiteSpace (digitChar (N.of_nat n)) = false).
  { intros n Hn. do 36 (destruct n as [|n]; [reflexivity|]). lia. }
  assert (H : (d mod 36 < 36)%N) by (apply N.mod_lt; discriminate).
  rewrite <- (N2Nat.id (d mod 36)). apply E. lia.
Qed.

Lemma noWhiteSpace_toUpperCase (s : string) :
  noWhiteSpace (toUpperCase s) = noWhiteSpace s.
Proof.
  induction s as [|c r IH]; simpl; [reflexivity|].
  now rewrite isWhiteSpace_upperChar, IH.
Qed.

Lemma noWhiteSpace_drop (n : nat) (s : string) :
  noWhiteSpace s = true -> noWhiteSpace (drop n s) = true.
Proof.
  revert s. induction n as [|n IH]; intros [|c r]; simpl; auto.
  intros H. apply andb_prop in H as [_ Hr]. auto.
Qed.

Lemma noWhiteSpace_take (n : nat) (s : string) :
  noWhiteSpace s = true -> noWhiteSpace (take n s) = true.
Proof.
  revert s. induction n as [|n IH]; intros [|c r]; simpl; auto.
  intros H. apply andb_prop in H as [-> Hr]. simpl. auto.
Qed.

Lemma noWhiteSpace_fraction (digits : list N) :
  noWhiteSpace (fractionToString36 digits) = true.
Proof.
  unfold fractionToString36. destruct digits as [|d rest]; [reflexivity|].
  change (noWhiteSpace (string_of_list_ascii
            (map (fun d => digitChar (d mod 36)) (d :: rest))) = true).
  induction (d :: rest) as [|e l IH]; simpl; [reflexivity|].
  now rewrite digitChar_not_white, IH.
Qed.

Lemma cleanEnd_app (s t : string) :
  t <> EmptyString -> cleanEnd (s ++ t) = cleanEnd t.
Proof.
  intros Ht. induction s as [|c r IH]; [reflexivity|].
  change ((String c r ++ t)%string) with (String c (r ++ t)).
  destruct (r ++ t)%string as [|d u] eqn:E.
  - destruct r, t; try discriminate. contradiction.
  - exact IH.
Qed.

Lemma cleanEnd_noWhiteSpace (c : ascii) (s : string) :
  isWhiteSpace c = false -> noWhiteSpace s = true -> cleanEnd (String c s) = true.
Proof.
  revert c. induction s as [|d r IH]; intros c Hc Hs.
  - simpl. now rewrite Hc.
  - simpl in Hs. apply andb_prop in Hs as [Hd Hr].
    change (cleanEnd (String d r) = true). apply IH; [|exact Hr].
    now destruct (isWhiteSpace d).
Qed.

(** Every identifier [generateId] makes is in upper case and has no white
    space around it. *)
Lemma generateId_tidy (now : N) (digits : list N) : tidy (generateId now digits).
Proof.
  unfold generateId, tidy. repeat split.
  - rewrite !toUpperCase_app, !toUpperCase_idempotent. reflexivity.
  - change (cleanEnd (("FUL-" ++ toUpperCase (toStringRadix 36 now))
                       ++ String "-" (toUpperCase
                            (substr 2 5 (fractionToString36 digits)))) = true).
    rewrite cleanEnd_app by discriminate.
    apply cleanEnd_noWhiteSpace; [reflexivity|].
    rewrite noWhiteSpace_toUpperCase. unfold substr.
    apply noWhiteSpace_take, noWhiteSpace_drop, noWhiteSpace_fraction.
Qed.

Lemma tidy_exec (c : Call) (st : Store) :
  Forall (fun f => tidy (id f)) (fulfillments st) ->
  Forall (fun f => tidy (id f)) (fulfillments (exec c st)).
Proof.
  intros Hst.
  destruct c as [data env|w now|w pw now|w s now|w]; cbn [exec].
  - cbn [createFulfillment snd]. rewrite fulfillments_saved.
    constructor; [apply generateId_tidy | exact Hst].
  - destruct (updateStatusViaQR_collection w now st)
      as [-> | (found & Hf & _ & _ & ->)]; [exact Hst|].
    apply (Forall_updateFirst _ _ _ _ found); auto.
  - destruct (validateAndCollect_collection w pw now st)
      as [-> | (found & Hf & _ & _ & _ & ->)]; [exact Hst|].
    apply (Forall_updateFirst _ _ _ _ found); auto.
  - pose proof (updateStatus_collection w s now st) as H.
    destruct (find (hasId w) (fulfillments st)) as [found|] eqn:Hf;
      rewrite H; [|exact Hst].
    apply (Forall_updateFirst _ _ _ _ found); auto.
    now rewrite id_advanced.
  - unfold deleteFulfillment. rewrite fulfillments_saved.
    apply Forall_forall. intros f Hin. apply filter_In in Hin as [Hin _].
    rewrite Forall_forall in Hst. auto.
Qed.

Lemma reachable_ids_tidy (st : Store) :
  Reachable anyCall st -> Forall (fun f => tidy (id f)) (fulfillments st).
Proof.
  induction 1 as [|st c _ IH _]; [constructor | now apply tidy_exec].
Qed.

(** The timeline of a record keeps the three stages it was created with. *)
Lemma stages_updateFirst (name now : string) (tl : list TimelineStage) :
  map stage (updateFirst (isStage name) (completeStage now) tl) = map stage tl.
Proof.
  induction tl as [|t rest IH]; [reflexivity|]. simpl.
  destruct (isStage name t); simpl; [reflexivity | now rewrite IH].
Qed.

Lemma threeStages_exec (c : Call) (st : Store) :
  Forall threeStages (fulfillments st) -> Forall threeStages (fulfillments (exec c st)).
Proof.
  intros Hst.
  assert (Hmark : forall name now f, threeStages f -> threeStages (markStage name now f)).
  { intros name now f Hf. unfold threeStages, markStage. cbn [setTimeline timeline].
    now rewrite stages_updateFirst. }
  destruct c as [data env|w now|w pw now|w s now|w]; cbn [exec].
  - cbn [createFulfillment snd]. rewrite fulfillments_saved.
    constructor; [reflexivity | exact Hst].
  - destruct (updateStatusViaQR_collection w now st)
      as [-> | (found & Hf & _ & _ & ->)]; [exact Hst|].
    apply (Forall_updateFirst _ _ _ _ found); auto.
    intros H. now apply Hmark.
  - destruct (validateAndCollect_collection w pw now st)
      as [-> | (found & Hf & _ & _ & _ & ->)]; [exact Hst|].
    apply (Forall_updateFirst _ _ _ _ found); auto.
    intros H. now apply Hmark.
  - pose proof (updateStatus_collection w s now st) as H.
    destruct (find (hasId w) (fulfillments st)) as [found|] eqn:Hf;
      rewrite H; [|exact Hst].
    apply (Forall_updateFirst _ _ _ _ found); auto.
    intros Hfound. unfold advanced. destruct (stageOfStatus s); [now apply Hmark | exact Hfound].
  - unfold deleteFulfillment. rewrite fulfillments_saved.
    apply Forall_forall. intros f Hin. apply filter_In in Hin as [Hin _].
    rewrite Forall_forall in Hst. auto.
Qed.

(** In the stores the methods reach, every record has its three stages,
    ['dropped-off'] among them. *)
Lemma reachable_threeStages (st : Store) :
  Reachable anyCall st -> Forall threeStages (fulfillments st).
Proof.
  induction 1 as [|st c _ IH _]; [constructor | now apply threeStages_exec].
Qed.

(** C9: in a store reached by the methods, the scanner form accepts the
    code of a record in any letter case and between any white space: it
    does exactly what [updateStatusViaQR] does with the exact id. *)
Theorem scanned_code_is_normalised (st : Store) (f : Fulfillment) (input now : string) :
  Reachable anyCall st ->
  In f (fulfillments st) ->
  matchesToken input (id f) ->
  handleScannerSubmit input now st = updateStatusViaQR (id f) now st.
Proof.
  intros Hst Hin Hm. unfold handleScannerSubmit.
  pose proof (reachable_ids_tidy st Hst) as Hall.
  rewrite Forall_forall in Hall.
  now rewrite (normalised_token input (id f) (Hall f Hin) Hm).
Qed.


Lemma scanned_code_is_normalised_witness :
  Reachable anyCall samplePending
  /\ In sampleRecord (fulfillments samplePending)
  /\ matchesToken "  ful-m304sdxc-K7x0f " (id sampleRecord)
  /\ handleScannerSubmit "  ful-m304sdxc-K7x0f " sampleDropTime samplePending
     = updateStatusViaQR (id sampleRecord) sampleDropTime samplePending.
Proof.
  assert (H1 : Reachable anyCall samplePending) by (repeat (constructor; try exact I)).
  assert (H2 : In sampleRecord (fulfillments samplePending))
    by exact (proj2 (getFulfillment_id _ _ _ samplePending_record)).
  assert (H3 : matchesToken "  ful-m304sdxc-K7x0f " (id sampleRecord)).
  { exists "  ", "ful-m304sdxc-K7x0f", " ". repeat split; vm_compute; reflexivity. }
  exact (conj H1 (conj H2 (conj H3
           (scanned_code_is_normalised samplePending sampleRecord _ sampleDropTime
              H1 H2 H3)))).
Defined.

(** The method itself compares with [===]: given the raw text, it finds
    nothing; the normalisation is the handler's. *)
Example updateStatusViaQR_compares_exactly :
  updateStatusViaQR "  ful-m304sdxc-K7x0f " sampleDropTime samplePending
  = (NotFound, samplePending).
Proof. reflexivity. Qed.

(** ** Rounding to the nearest double *)

Module DoubleFacts.
Import Double.
Local Open Scope Z_scope.

Section RoundHalfEven.
Variables (n sh : Z).
Hypothesis sh_pos : 1 <= sh.

Lemma half_twice : 2 ^ sh = 2 * 2 ^ (sh - 1).
Proof.
  replace sh with (1 + (sh - 1)) at 1 by lia.
  rewrite Z.pow_add_r by lia. reflexivity.
Qed.

Lemma roundHalfEven_lower (D : Z) : D * 2 ^ sh <= n -> D <= roundHalfEven n sh.
Proof.
  intros H. unfold roundHalfEven.
  assert (B : 0 < 2 ^ sh) by (apply Z.pow_pos_nonneg; lia).
  assert (Q : D <= n / 2 ^ sh) by (apply Z.div_le_lower_bound; lia).
  destruct (_ <? _); [lia|]. destruct (_ <? _); [lia|]. destruct (Z.even _); lia.
Qed.

Lemma roundHalfEven_below_half (D : Z) :
  2 * n < (2 * D + 1) * 2 ^ sh -> roundHalfEven n sh <= D.
Proof.
  intros H. unfold roundHalfEven.
  assert (B : 0 < 2 ^ sh) by (apply Z.pow_pos_nonneg; lia).
  pose proof half_twice as Hh.
  pose proof (Z.div_mod n (2 ^ sh) ltac:(lia)) as E.
  pose proof (Z.mod_pos_bound n (2 ^ sh) B) as R.
  set (q := n / 2 ^ sh) in *. set (r := n mod 2 ^ sh) in *.
  set (h := 2 ^ (sh - 1)) in *. set (b := 2 ^ sh) in *.
  assert (Q : q <= D) by nia.
  destruct (r <? h) eqn:C1; [exact Q|].
  apply Z.ltb_ge in C1.
  assert (q < D) by nia.
  destruct (h <? r); [lia|]. destruct (Z.even q); lia.
Qed.

Lemma roundHalfEven_upper (D : Z) : n <= D * 2 ^ sh -> roundHalfEven n sh <= D.
Proof.
  intros H. apply roundHalfEven_below_half.
  assert (B : 0 < 2 ^ sh) by (apply Z.pow_pos_nonneg; lia). nia.
Qed.

End RoundHalfEven.

(** The shift of [round53] on a number below [2 ^ b]. *)
Lemma shift_bound (n b : Z) :
  2 ^ 53 <= n -> n < 2 ^ b -> 1 <= Z.log2 n - 52 <= b - 53.
Proof.
  intros Hlo Hhi.
  assert (Hn : 0 < n) by (pose proof (Z.pow_pos_nonneg 2 53); lia).
  apply (Z.log2_lt_pow2 n b Hn) in Hhi.
  apply (Z.log2_le_pow2 n 53 Hn) in Hlo. lia.
Qed.

(** The product by 900000 of a double below 1 is at most the double just
    below 900000. *)
Lemma mul_900000_bound (r : double) :
  unitInterval r ->
  let p := mul r (ofInt 900000) in
  exp p <= -33
  /\ 0 <= sig p <= 900000 * 2 ^ (- exp p) - 2 ^ (- exp p - 33).
Proof.
  intros [[Hm0 Hm] [_ He]]. unfold mul, ofInt, round53. cbn [sig exp].
  set (n := sig r * 900000). set (q := - exp r).
  assert (Hq : 53 <= q) by (unfold q; lia).
  replace (exp r + 0) with (- q) by (unfold q; lia).
  set (X := 2 ^ (q - 53)).
  assert (HX : 1 <= X) by (pose proof (Z.pow_pos_nonneg 2 (q - 53)); unfold X; lia).
  assert (Hn : 0 <= n <= 900000 * (2 ^ 53 - 1)) by (unfold n; lia).
  destruct (n <? 2 ^ 53) eqn:C; cbn [sig exp].
  - apply Z.ltb_lt in C. rewrite Z.opp_involutive.
    assert (E1 : 2 ^ q = 2 ^ 53 * X).
    { unfold X. rewrite <- Z.pow_add_r by lia. f_equal. lia. }
    assert (E2 : 2 ^ (q - 33) = 2 ^ 20 * X).
    { unfold X. rewrite <- Z.pow_add_r by lia. f_equal. lia. }
    rewrite E1, E2. change (2 ^ 53) with 9007199254740992 in *.
    change (2 ^ 20) with 1048576. lia.
  - apply Z.ltb_ge in C.
    assert (Hsh : 1 <= Z.log2 n - 52 <= 20).
    { apply (shift_bound n 73 C). change (2 ^ 73) with 9444732965739290427392.
      change (2 ^ 53) with 9007199254740992 in Hn. lia. }
    set (sh := Z.log2 n - 52) in *.
    assert (Hspec : n < 2 ^ (53 + sh)).
    { unfold sh. replace (53 + (Z.log2 n - 52)) with (Z.succ (Z.log2 n)) by lia.
      apply Z.log2_spec. change (2 ^ 53) with 9007199254740992 in C. lia. }
    set (G := 2 ^ (20 - sh)). set (Y := 2 ^ sh).
    assert (HY : 2 <= Y).
    { unfold Y. change 2 with (2 ^ 1) at 1. apply Z.pow_le_mono_r; lia. }
    assert (HG : 1 <= G) by (pose proof (Z.pow_pos_nonneg 2 (20 - sh)); unfold G; lia).
    assert (EYG : Y * G = 2 ^ 20).
    { unfold Y, G. rewrite <- Z.pow_add_r by lia. f_equal. lia. }
    assert (E1 : 2 ^ (- (- q + sh)) = 2 ^ 33 * (X * G)).
    { unfold X, G. rewrite <- !Z.pow_add_r by lia. f_equal. lia. }
    assert (E2 : 2 ^ (- (- q + sh) - 33) = X * G).
    { unfold X, G. rewrite <- !Z.pow_add_r by lia. f_equal. lia. }
    assert (E3 : 2 ^ (53 + sh) = 2 ^ 53 * Y).
    { unfold Y. rewrite Z.pow_add_r by lia. reflexivity. }
    rewrite E1, E2. split; [lia|]. split.
    + apply (roundHalfEven_lower n sh ltac:(lia) 0). lia.
    + replace (900000 * (2 ^ 33 * (X * G)) - X * G)
        with ((900000 * 2 ^ 33 - 1) * (X * G)) by ring.
      apply roundHalfEven_below_half; [lia|]. fold Y.
      replace ((2 * ((900000 * 2 ^ 33 - 1) * (X * G)) + 1) * Y)
        with (2 * (900000 * 2 ^ 33 - 1) * X * (Y * G) + Y) by ring.
      rewrite EYG. rewrite E3 in Hspec.
      change (2 ^ 53) with 9007199254740992 in *.
      change (2 ^ 33) with 8589934592. change (2 ^ 20) with 1048576 in *.
      assert (Y <= 1048576) by nia.
      destruct (Z.eq_dec X 1) as [->|]; [|lia].
      destruct (Z_le_gt_dec Y 262144); lia.
Qed.

(** Adding 100000 to it and taking the floor stays below a million. *)
Lemma add_100000_floor (p : double) :
  exp p <= -33 ->
  0 <= sig p <= 900000 * 2 ^ (- exp p) - 2 ^ (- exp p - 33) ->
  100000 <= floor (add (ofInt 100000) p) <= 999999.
Proof.
  intros He Hp. unfold add, ofInt. cbn [sig exp].
  rewrite Z.min_r by lia.
  replace (exp p - exp p) with 0 by lia. rewrite Z.pow_0_r, Z.mul_1_r.
  set (t := - exp p) in *. replace (0 - exp p) with t by (unfold t; lia).
  set (V := 2 ^ (t - 33)) in *.
  assert (HV : 1 <= V) by (pose proof (Z.pow_pos_nonneg 2 (t - 33)); unfold V, t; lia).
  assert (Et : 2 ^ t = 2 ^ 33 * V).
  { unfold V. rewrite <- Z.pow_add_r by (unfold t; lia). f_equal. lia. }
  rewrite Et in *. set (S := 100000 * (2 ^ 33 * V) + sig p).
  assert (HS : 100000 * 2 ^ 33 * V <= S <= (1000000 * 2 ^ 33 - 1) * V) by (unfold S; lia).
  unfold round53, floor.
  destruct (S <? 2 ^ 53) eqn:C; cbn [sig exp].
  - destruct (0 <=? exp p) eqn:C0; [apply Z.leb_le in C0; lia|].
    fold t. rewrite Et.
    assert (B : 0 < 2 ^ 33 * V) by lia.
    split.
    + apply Z.div_le_lower_bound; lia.
    + enough (S / (2 ^ 33 * V) < 1000000) by lia.
      apply Z.div_lt_upper_bound; lia.
  - apply Z.ltb_ge in C.
    assert (Hsh : 1 <= Z.log2 S - 52 <= 20 + t - 53).
    { apply (shift_bound S (20 + t) C).
      rewrite Z.pow_add_r by (unfold t; lia). rewrite Et.
      change (2 ^ 20) with 1048576. change (2 ^ 33) with 8589934592 in *. nia. }
    set (sh := Z.log2 S - 52) in *.
    destruct (0 <=? exp p + sh) eqn:C0; [apply Z.leb_le in C0; unfold t in *; lia|].
    set (W := 2 ^ (t - sh - 33)). set (Y := 2 ^ sh).
    assert (HW : 1 <= W)
      by (pose proof (Z.pow_pos_nonneg 2 (t - sh - 33)); unfold W; lia).
    assert (EV : V = W * Y).
    { unfold V, W, Y. rewrite <- Z.pow_add_r by lia. f_equal. lia. }
    assert (Eu : 2 ^ (- (exp p + sh)) = 2 ^ 33 * W).
    { unfold W. rewrite <- Z.pow_add_r by lia. f_equal. unfold t. lia. }
    rewrite Eu.
    assert (Hup : roundHalfEven S sh <= (1000000 * 2 ^ 33 - 1) * W).
    { apply roundHalfEven_upper; [lia|]. fold Y. rewrite EV in HS. lia. }
    assert (Hlo : 100000 * 2 ^ 33 * W <= roundHalfEven S sh).
    { apply roundHalfEven_lower; [lia|]. fold Y. rewrite EV in HS. lia. }
    assert (B : 0 < 2 ^ 33 * W) by lia.
    split.
    + apply Z.div_le_lower_bound; lia.
    + enough (roundHalfEven S sh / (2 ^ 33 * W) < 1000000) by lia.
      apply Z.div_lt_upper_bound; lia.
Qed.

(** The number behind the PIN: [Math.floor(100000 + Math.random() * 900000)]
    is an integer from 100000 to 999999. *)
Lemma pin_range (random : double) :
  unitInterval random ->
  100000 <= floor (add (ofInt 100000) (mul random (ofInt 900000))) <= 999999.
Proof.
  intros H. destruct (mul_900000_bound random H) as [He Hs].
  now apply add_100000_floor.
Qed.

End DoubleFacts.

(** ** Decimal and hexadecimal text *)

Lemma digitChar_decimal (n : N) : isDigit (digitChar (n mod 10)) = true.
Proof.
  assert (E : forall k : nat, k < 10 -> isDigit (digitChar (N.of_nat k)) = true).
  { intros k Hk. do 10 (destruct k as [|k]; [reflexivity|]). lia. }
  assert (H : (n mod 10 < 10)%N) by (apply N.mod_lt; discriminate).
  rewrite <- (N2Nat.id (n mod 10)). apply E. lia.
Qed.

Lemma allDigits_app (s t : string) :
  allDigits (s ++ t) = allDigits s && allDigits t.
Proof.
  induction s as [|c r IH]; simpl; [reflexivity|].
  now rewrite IH, andb_assoc.
Qed.

Lemma append_assoc (s t u : string) : ((s ++ t) ++ u = s ++ (t ++ u))%string.
Proof. induction s as [|c r IH]; simpl; [reflexivity | now rewrite IH]. Qed.

Lemma append_empty (s : string) : (s ++ EmptyString)%string = s.
Proof. induction s as [|c r IH]; simpl; [reflexivity | now rewrite IH]. Qed.

Lemma length_app (s t : string) :
  String.length (s ++ t) = String.length s + String.length t.
Proof. induction s as [|c r IH]; simpl; [reflexivity | now rewrite IH]. Qed.

(** A number of [k + 1] decimal digits is printed on [k + 1] digits, in
    front of what is already there. *)
Lemma digitsAux_decimal (k fuel : nat) (n : N) (acc : string) :
  k < fuel ->
  (10 ^ N.of_nat k <= n < 10 ^ N.of_nat (S k))%N ->
  exists ds,
    digitsAux fuel 10 n acc = ds ++ acc
    /\ String.length ds = S k /\ allDigits ds = true.
Proof.
  revert fuel n acc. induction k as [|k IH]; intros fuel n acc Hfuel Hn.
  - destruct fuel as [|fuel]; [lia|]. cbn [digitsAux].
    change (10 ^ N.of_nat 1)%N with 10%N in Hn.
    assert (E : (n / 10 = 0)%N) by (apply N.div_small; lia).
    rewrite E. cbn [N.eqb].
    exists (String (digitChar (n mod 10)) EmptyString).
    repeat split. cbn [allDigits]. now rewrite digitChar_decimal.
  - destruct fuel as [|fuel]; [lia|]. cbn [digitsAux].
    rewrite !Nat2N.inj_succ, !N.pow_succ_r' in Hn.
    rewrite Nat2N.inj_succ in IH.  rewrite N.pow_succ_r' in IH.
    assert (P : (0 < 10 ^ N.of_nat k)%N) by (apply N.neq_0_lt_0, N.pow_nonzero; discriminate).
    assert (Hd : (10 ^ N.of_nat k <= n / 10 < 10 * 10 ^ N.of_nat k)%N).
    { split.
      - apply N.div_le_lower_bound; [discriminate | lia].
      - apply N.Div0.div_lt_upper_bound. lia. }
    destruct (n / 10 =? 0)%N eqn:E; [apply N.eqb_eq in E; lia|].
    destruct (IH fuel (n / 10)%N (String (digitChar (n mod 10)) acc) ltac:(lia) Hd)
      as (ds & -> & Hlen & Hall).
    exists (ds ++ String (digitChar (n mod 10)) EmptyString). repeat split.
    + now rewrite append_assoc.
    + rewrite length_app, Hlen. simpl. lia.
    + rewrite allDigits_app, Hall. cbn [allDigits andb]. now rewrite digitChar_decimal.
Qed.

Lemma toString_six_digits (n : N) :
  (100000 <= n <= 999999)%N ->
  String.length (toString n) = 6 /\ allDigits (toString n) = true.
Proof.
  intros Hn. unfold toString, toStringRadix.
  assert (Hlog : (16 <= N.log2 n)%N).
  { change 16%N with (N.log2 65536). apply N.log2_le_mono. lia. }
  destruct (digitsAux_decimal 5 (S (N.to_nat (N.log2 n))) n EmptyString) as (ds & E & Hl & Ha).
  - lia.
  - change (10 ^ N.of_nat 5)%N with 100000%N. change (10 ^ N.of_nat 6)%N with 1000000%N. lia.
  - rewrite E, append_empty. now split.
Qed.

(** The digest has 32 bytes, printed on two hexadecimal digits each. *)
Lemma hex2_length (b : Z) : (0 <= b < 256)%Z -> String.length (hex2 b) = 2.
Proof.
  intros Hb.
  assert (E : forallb (fun k => Nat.eqb (String.length (hex2 (Z.of_nat k))) 2) (seq 0 256) = true)
    by (vm_compute; reflexivity).
  rewrite forallb_forall in E.
  specialize (E (Z.to_nat b)). rewrite Z2Nat.id in E by lia.
  apply Nat.eqb_eq, E, in_seq. lia.
Qed.

Lemma bigEndian_bytes (count : nat) (x : Z) :
  Forall (fun b => 0 <= b < 256)%Z (Sha256.bigEndian count x).
Proof.
  unfold Sha256.bigEndian. apply Forall_forall. intros b Hin.
  apply in_map_iff in Hin as (i & <- & _).
  change 255%Z with (Z.ones 8). rewrite Z.land_ones by lia.
  apply Z.mod_pos_bound. reflexivity.
Qed.

Lemma digest_bytes (msg : list Z) :
  List.length (Sha256.digest msg) = 32
  /\ Forall (fun b => 0 <= b < 256)%Z (Sha256.digest msg).
Proof.
  unfold Sha256.digest.
  generalize (Sha256.blocks (List.length (Sha256.wordsOf (Sha256.pad msg)))
                (Sha256.wordsOf (Sha256.pad msg)) Sha256.initial).
  intros r. split; [reflexivity|].
  apply Forall_flat_map.
  repeat (apply Forall_cons; [apply bigEndian_bytes|]). apply Forall_nil.
Qed.

Lemma hexOf_length (bytes : list Z) :
  Forall (fun b => 0 <= b < 256)%Z bytes ->
  String.length (join (map hex2 bytes)) = 2 * List.length bytes.
Proof.
  induction 1 as [|b rest Hb _ IH]; [reflexivity|].
  cbn [map join fold_right List.length].
  change (fold_right append EmptyString (map hex2 rest)) with (join (map hex2 rest)).
  rewrite length_app, hex2_length, IH by assumption. lia.
Qed.

Lemma hashPassword_length (password : string) :
  String.length (hashPassword password) = 64.
Proof.
  unfold hashPassword.
  destruct (digest_bytes (encode password)) as [Hlen Hall].
  now rewrite hexOf_length, Hlen.
Qed.

(** ** Creation *)

Lemma generatePassword_range (random : Double.double) :
  Double.unitInterval random ->
  exists n, (100000 <= n <= 999999)%N /\ generatePassword random = toString n.
Proof.
  intros H. unfold generatePassword.
  pose proof (DoubleFacts.pin_range random H) as Hr.
  eexists. split; [|reflexivity]. lia.
Qed.

Lemma generatePassword_six_digits (random : Double.double) :
  Double.unitInterval random ->
  String.length (generatePassword random) = 6
  /\ allDigits (generatePassword random) = true.
Proof.
  intros H. destruct (generatePassword_range _ H) as (n & Hn & ->).
  now apply toString_six_digits.
Qed.

(** C6: with [Math.random()] in the interval [0, 1), [createFulfillment]
    makes a pending record with both flags unset and a timeline of three
    stages, ['created'] completed with a timestamp, ['dropped-off'] and
    ['collected'] not completed and without timestamp; the password is the
    decimal text of an integer from 100000 to 999999, six digits; the record
    is put at the head of the collection. *)
Theorem createFulfillment_initial_record (data : Data.t) (env : Environment) (st : Store) :
  Double.unitInterval (pinRandom env) ->
  let out := createFulfillment data env st in
  let created := fst (fst out) in
  let password := snd (fst out) in
  status created = "pending"
  /\ qrCodeUsed created = false
  /\ passwordUsed created = false
  /\ map (fun t => (stage t, completed t, timestamp t)) (timeline created)
     = [ ("created", true, Some (createdStageClock env));
         ("dropped-off", false, None);
         ("collected", false, None) ]
  /\ (exists n, (100000 <= n <= 999999)%N /\ password = toString n)
  /\ String.length password = 6
  /\ allDigits password = true
  /\ fulfillments (snd out) = created :: fulfillments st.
Proof.
  intros Hr out created password.
  destruct (generatePassword_six_digits _ Hr) as [Hl Hd].
  repeat split; try reflexivity.
  - exact (generatePassword_range _ Hr).
  - exact Hl.
  - exact Hd.
Qed.

Lemma createFulfillment_initial_record_witness :
  Double.unitInterval (pinRandom sampleEnvironment)
  /\ let out := createFulfillment sampleData sampleEnvironment emptyStore in
     status (fst (fst out)) = "pending"
     /\ String.length (snd (fst out)) = 6
     /\ fulfillments (snd out) = [fst (fst out)].
Proof.
  assert (H : Double.unitInterval (pinRandom sampleEnvironment))
    by (vm_compute; intuition discriminate).
  split; [exact H|].
  destruct (createFulfillment_initial_record sampleData sampleEnvironment emptyStore H)
    as (H1 & _ & _ & _ & _ & H6 & _ & H8).
  exact (conj H1 (conj H6 H8)).
Defined.

(** C5: the password returned by [createFulfillment] hashes (SHA-256, in
    hexadecimal) to the [passwordHash] of the record; the record keeps the
    hash and not the password: its [passwordHash] is not the password, and
    the record and the text written to [localStorage] are the same for any
    other draw whose password has the same hash. *)
Theorem secret_is_kept_as_hash_only (data : Data.t) (env : Environment) (st : Store) :
  Double.unitInterval (pinRandom env) ->
  let out := createFulfillment data env st in
  let created := fst (fst out) in
  let password := snd (fst out) in
  hashPassword password = passwordHash created
  /\ passwordHash created <> password
  /\ forall env',
       sameApartFromPin env env' ->
       hashPassword (snd (fst (createFulfillment data env' st))) = hashPassword password ->
       fst (fst (createFulfillment data env' st)) = created
       /\ localStorage (snd (createFulfillment data env' st)) = localStorage (snd out).
Proof.
  intros Hr out created password. split; [reflexivity|]. split.
  - intros E.
    pose proof (generatePassword_six_digits _ Hr) as [Hl _].
    change (String.length password = 6) in Hl. rewrite <- E in Hl.
    change (passwordHash created) with (hashPassword password) in Hl.
    rewrite hashPassword_length in Hl. discriminate.
  - intros env' (E1 & E2 & E3 & E4) Hh.
    assert (Hc : fst (fst (createFulfillment data env' st)) = created).
    { unfold created, out. cbn [createFulfillment fst snd] in *.
      unfold newFulfillment. now rewrite Hh, E1, E2, E3, E4. }
    split; [exact Hc|].
    unfold out. cbn [createFulfillment fst snd] in *.
    cbn [saveToStorage notify localStorage setFulfillments fulfillments].
    unfold created, out in Hc. cbn [createFulfillment fst snd] in Hc. now rewrite Hc.
Qed.

Lemma secret_is_kept_as_hash_only_witness :
  Double.unitInterval (pinRandom sampleEnvironment)
  /\ let out := createFulfillment sampleData sampleEnvironment emptyStore in
     hashPassword (snd (fst out)) = passwordHash (fst (fst out))
     /\ fst (fst (createFulfillment sampleData sampleEnvironment' emptyStore))
        = fst (fst out).
Proof.
  assert (H : Double.unitInterval (pinRandom sampleEnvironment))
    by (vm_compute; intuition discriminate).
  split; [exact H|].
  destruct (secret_is_kept_as_hash_only sampleData sampleEnvironment emptyStore H)
    as (H1 & _ & H3).
  split; [exact H1|].
  apply H3; [repeat split | vm_compute; reflexivity].
Defined.

(** ** [JSON.parse] reads back what [JSON.stringify] writes *)

Module JsonFacts.
Import Json.

(** Inside a string literal, the escaped form of a character reads back as
    the character. *)
Lemma lex_quoteChar (c : ascii) (acc : list ascii) (toks : list token) (rest : string) :
  lex (LString acc) toks (quoteChar c ++ rest) = lex (LString (c :: acc)) toks rest.
Proof.
  destruct c as [[|] [|] [|] [|] [|] [|] [|] [|]]; reflexivity.
Qed.

Lemma lex_quoteBody (s : string) (acc : list ascii) (toks : list token) (rest : string) :
  lex (LString acc) toks (quoteBody s ++ rest)
  = lex (LString (rev (list_ascii_of_string s) ++ acc)) toks rest.
Proof.
  revert acc. induction s as [|c r IH]; intros acc; [reflexivity|].
  cbn [quoteBody list_ascii_of_string rev].
  rewrite append_assoc, lex_quoteChar, IH, <- app_assoc. reflexivity.
Qed.

Lemma lex_quote (s : string) (toks : list token) (rest : string) :
  lex LStart toks (quote s ++ rest) = lex LStart (TStr s :: toks) rest.
Proof.
  unfold quote.
  change (lex LStart toks (String (ascii_of_N 34)
            ((quoteBody s ++ String (ascii_of_N 34) EmptyString) ++ rest))
          = lex LStart (TStr s :: toks) rest).
  rewrite append_assoc.
  change (lex (LString []) toks (quoteBody s ++ String (ascii_of_N 34) rest)
          = lex LStart (TStr s :: toks) rest).
  rewrite lex_quoteBody.
  change (lex LStart
            (TStr (ofRev (rev (list_ascii_of_string s) ++ [])) :: toks) rest
          = lex LStart (TStr s :: toks) rest).
  unfold ofRev. now rewrite app_nil_r, rev_involutive, string_of_list_ascii_of_string.
Qed.

Lemma lex_word (w : string) (t : token) (toks : list token) (rest : string) :
  (w, t) = ("true", TTrue) \/ (w, t) = ("false", TFalse) \/ (w, t) = ("null", TNull) ->
  boundary rest ->
  lex LStart toks (w ++ rest) = lex LStart (t :: toks) rest.
Proof.
  intros Hw Hb.
  destruct rest as [|c rest].
  - destruct Hw as [E|[E|E]]; inversion E; subst; reflexivity.
  - destruct Hb as [-> | [-> | ->]];
      destruct Hw as [E|[E|E]]; inversion E; subst; reflexivity.
Qed.

Lemma rev_append_app {A : Type} (l1 l2 acc : list A) :
  rev_append (l1 ++ l2)%list acc = rev_append l2 (rev_append l1 acc).
Proof. revert acc. induction l1 as [|x r IH]; intros acc; simpl; auto. Qed.

(** The lexer turns the text of a value into its tokens. *)
Lemma lex_items (items : list value) (close : ascii) (toks : list token) (rest : string) :
  Forall lexesBack items ->
  forallb numberFree items = true ->
  close = "]"%char ->
  lex LStart toks (commaJoin (map stringify items) ++ String close rest)
  = lex LStart (rev_append (separated (map tokensOf items)) toks) (String close rest).
Proof.
  intros Hall Hnf ->. revert toks.
  induction Hall as [|x l Hx _ IH]; intros toks; [reflexivity|].
  cbn [forallb] in Hnf. apply andb_prop in Hnf as [Hnx Hnl].
  destruct l as [|y l'].
  - cbn [map commaJoin separated]. apply (Hx Hnx). simpl. auto.
  - change (commaJoin (map stringify (x :: y :: l')))
      with (stringify x ++ "," ++ commaJoin (map stringify (y :: l')))%string.
    change (separated (map tokensOf (x :: y :: l')))
      with (tokensOf x ++ Comma :: separated (map tokensOf (y :: l')))%list.
    rewrite !append_assoc, (Hx Hnx) by (simpl; auto).
    rewrite rev_append_app. cbn [rev_append].
    rewrite <- (IH Hnl). reflexivity.
Qed.

Lemma lex_members (members : list (string * value)) (toks : list token) (rest : string) :
  Forall (fun kv => lexesBack (snd kv)) members ->
  forallb (fun kv => numberFree (snd kv)) members = true ->
  lex LStart toks
    (commaJoin (map (fun kv => quote (fst kv) ++ ":" ++ stringify (snd kv))%string members)
     ++ String "}" rest)
  = lex LStart
      (rev_append (separated (map (fun kv => TStr (fst kv) :: Colon :: tokensOf (snd kv))
                                  members)) toks)
      (String "}" rest).
Proof.
  intros Hall Hnf. revert toks.
  induction Hall as [|x l Hx _ IH]; intros toks; [reflexivity|].
  cbn [forallb] in Hnf. apply andb_prop in Hnf as [Hnx Hnl].
  destruct l as [|y l'].
  - cbn [map commaJoin separated rev_append].
    rewrite !append_assoc, lex_quote.
    change (lex LStart (Colon :: TStr (fst x) :: toks)
              (stringify (snd x) ++ String "}" rest)
            = lex LStart (rev_append (tokensOf (snd x)) (Colon :: TStr (fst x) :: toks))
                (String "}" rest)).
    apply (Hx Hnx). simpl. auto.
  - set (member := fun kv : string * value =>
                     (quote (fst kv) ++ ":" ++ stringify (snd kv))%string) in *.
    set (group := fun kv : string * value =>
                    TStr (fst kv) :: Colon :: tokensOf (snd kv)) in *.
    change (commaJoin (map member (x :: y :: l')))
      with (member x ++ "," ++ commaJoin (map member (y :: l')))%string.
    change (separated (map group (x :: y :: l')))
      with (group x ++ Comma :: separated (map group (y :: l')))%list.
    unfold member at 1. rewrite !append_assoc, lex_quote.
    change (lex LStart (TStr (fst x) :: toks)
              (":" ++ stringify (snd x) ++ "," ++ commaJoin (map member (y :: l'))
                   ++ String "}" rest))
      with (lex LStart (Colon :: TStr (fst x) :: toks)
              (stringify (snd x) ++ "," ++ commaJoin (map member (y :: l'))
                   ++ String "}" rest)).
    rewrite (Hx Hnx) by (simpl; auto).
    rewrite rev_append_app. unfold group at 1. cbn [rev_append].
    rewrite <- (IH Hnl). reflexivity.
Qed.

Lemma lex_value (v : value) : lexesBack v.
Proof.
  induction v as [|b|literal|s|items IH|members IH] using value_induction;
    intros Hnf toks rest Hb.
  - apply (lex_word "null" TNull); auto.
  - destruct b; [apply (lex_word "true" TTrue) | apply (lex_word "false" TFalse)]; auto.
  - discriminate.
  - apply lex_quote.
  - cbn [stringify tokensOf numberFree] in *.
    rewrite !append_assoc.
    change (lex LStart (LBracket :: toks)
              (commaJoin (map stringify items) ++ String "]" rest)
            = lex LStart
                (rev_append (LBracket :: (separated (map tokensOf items) ++ [RBracket])%list) toks)
                rest).
    rewrite (lex_items items "]" _ rest IH Hnf eq_refl).
    cbn [rev_append]. rewrite rev_append_app. reflexivity.
  - cbn [stringify tokensOf numberFree] in *.
    rewrite !append_assoc.
    set (member := fun kv : string * value =>
                     (quote (fst kv) ++ ":" ++ stringify (snd kv))%string).
    set (group := fun kv : string * value =>
                    TStr (fst kv) :: Colon :: tokensOf (snd kv)).
    change (lex LStart (LBrace :: toks)
              (commaJoin (map member members) ++ String "}" rest)
            = lex LStart
                (rev_append (LBrace :: (separated (map group members) ++ [RBrace])%list) toks)
                rest).
    unfold member, group.
    rewrite (lex_members members _ rest IH Hnf).
    cbn [rev_append]. rewrite rev_append_app. reflexivity.
Qed.

(** The automaton rebuilds the value from its tokens. *)
Lemma parseTokens_step (m : mode) (stack : list frame) (t : token)
    (p : mode * list frame) (rest : list token) :
  parseStep m stack t = Some p -> parseTokens m stack (t :: rest) = resume p rest.
Proof. intros H. cbn [parseTokens]. rewrite H. now destruct p. Qed.

Lemma parse_scalar (v : value) (t : token) :
  tokensOf v = [t] ->
  (forall stack, startValue t stack = Some (complete v stack)) ->
  t <> RBracket ->
  parsesBack v.
Proof.
  intros Ht Hs Hne m stack rest Hm. rewrite Ht. cbn [app].
  apply parseTokens_step. rewrite <- Hs.
  destruct Hm as [-> | ->]; [reflexivity|]. destruct t; try reflexivity. contradiction.
Qed.

Lemma parse_items (items : list value) :
  Forall parsesBack items -> items <> [] ->
  forall m acc stack rest, startsValue m ->
    parseTokens m (FArray acc :: stack)
      (separated (map tokensOf items) ++ RBracket :: rest)%list
    = resume (complete (Array (rev (rev items ++ acc))) stack) rest.
Proof.
  induction 1 as [|x l Hx _ IH]; intros Hne m acc stack rest Hm; [contradiction|].
  destruct l as [|y l'].
  - cbn [map separated]. rewrite (Hx m _ _ Hm). unfold resume at 1.
    cbn [complete fst snd]. now apply parseTokens_step.
  - change (separated (map tokensOf (x :: y :: l')))
      with (tokensOf x ++ Comma :: separated (map tokensOf (y :: l')))%list.
    rewrite <- app_assoc. rewrite (Hx m _ _ Hm). unfold resume at 1.
    cbn [complete fst snd app].
    rewrite (parseTokens_step _ _ Comma (ExpectValue, FArray (x :: acc) :: stack))
      by reflexivity.
    unfold resume at 1. cbn [fst snd].
    rewrite (IH ltac:(discriminate) ExpectValue (x :: acc) stack rest) by now left.
    change (rev (x :: y :: l')) with (rev (y :: l') ++ [x])%list.
    now rewrite <- app_assoc.
Qed.

Lemma parse_members (members : list (string * value)) :
  Forall (fun kv => parsesBack (snd kv)) members -> members <> [] ->
  forall m acc key stack rest, startsKey m ->
    parseTokens m (FObject acc key :: stack)
      (separated (map (fun kv => TStr (fst kv) :: Colon :: tokensOf (snd kv)) members)
       ++ RBrace :: rest)%list
    = resume (complete (Object (rev (rev members ++ acc))) stack) rest.
Proof.
  set (group := fun kv : string * value => TStr (fst kv) :: Colon :: tokensOf (snd kv)).
  induction 1 as [|x l Hx _ IH]; intros Hne m acc key stack rest Hm; [contradiction|].
  assert (Hkey : forall more,
            parseTokens m (FObject acc key :: stack) (group x ++ more)%list
            = parseTokens ExpectCommaOrEnd
                (FObject ((fst x, snd x) :: acc) (fst x) :: stack) more).
  { intros more. unfold group. cbn [app].
    rewrite (parseTokens_step _ _ _ (ExpectColon (fst x), FObject acc (fst x) :: stack))
      by (destruct Hm as [-> | ->]; reflexivity).
    unfold resume. cbn [fst snd].
    rewrite (parseTokens_step _ _ Colon (ExpectValue, FObject acc (fst x) :: stack))
      by reflexivity.
    unfold resume. cbn [fst snd].
    rewrite (Hx ExpectValue _ _ ltac:(now left)). reflexivity. }
  destruct l as [|y l'].
  - cbn [map separated]. rewrite Hkey.
    rewrite (parseTokens_step _ _ RBrace
               (complete (Object (rev ((fst x, snd x) :: acc))) stack)) by reflexivity.
    now destruct x.
  - change (separated (map group (x :: y :: l')))
      with (group x ++ Comma :: separated (map group (y :: l')))%list.
    rewrite <- app_assoc, Hkey. cbn [app].
    rewrite (parseTokens_step _ _ Comma
               (ExpectKey, FObject ((fst x, snd x) :: acc) (fst x) :: stack))
      by reflexivity.
    unfold resume at 1. cbn [fst snd].
    rewrite (IH ltac:(discriminate) ExpectKey _ _ stack rest) by now left.
    change (rev (x :: y :: l')) with (rev (y :: l') ++ [x])%list.
    rewrite <- app_assoc. now destruct x.
Qed.

Lemma parse_value (v : value) : parsesBack v.
Proof.
  induction v as [|b|literal|s|items IH|members IH] using value_induction.
  - now apply (parse_scalar Null TNull).
  - destruct b; [now apply (parse_scalar _ TTrue) | now apply (parse_scalar _ TFalse)].
  - now apply (parse_scalar _ (TNum literal)).
  - now apply (parse_scalar _ (TStr s)).
  - intros m stack rest Hm. cbn [tokensOf app].
    rewrite (parseTokens_step _ _ LBracket (ExpectValueOrEnd, FArray [] :: stack))
      by (destruct Hm as [-> | ->]; reflexivity).
    unfold resume at 1. cbn [fst snd]. rewrite <- app_assoc. cbn [app].
    destruct items as [|x l].
    + now apply parseTokens_step.
    + rewrite (parse_items _ IH ltac:(discriminate) _ [] stack rest) by now right.
      now rewrite app_nil_r, rev_involutive.
  - intros m stack rest Hm. cbn [tokensOf app].
    rewrite (parseTokens_step _ _ LBrace (ExpectKeyOrEnd, FObject [] EmptyString :: stack))
      by (destruct Hm as [-> | ->]; reflexivity).
    unfold resume at 1. cbn [fst snd]. rewrite <- app_assoc. cbn [app].
    destruct members as [|x l].
    + now apply parseTokens_step.
    + rewrite (parse_members _ IH ltac:(discriminate) _ [] _ stack rest) by now right.
      now rewrite app_nil_r, rev_involutive.
Qed.

(** [JSON.parse(JSON.stringify(v))] is [v], for a value without numbers. *)
Lemma parse_stringify (v : value) :
  numberFree v = true -> parse (stringify v) = Some v.
Proof.
  intros Hnf. unfold parse.
  rewrite <- (append_empty (stringify v)).
  rewrite (lex_value v Hnf [] EmptyString I).
  cbn [lex lexEnd]. rewrite rev_append_rev, app_nil_r, rev_involutive.
  rewrite <- (app_nil_r (tokensOf v)).
  now rewrite (parse_value v ExpectValue [] [] ltac:(now left)).
Qed.

End JsonFacts.

(** ** Loading the persisted collection *)

Lemma timeline_numberFree (tl : list TimelineStage) :
  forallb Json.numberFree (map stageToJson tl) = true.
Proof.
  induction tl as [|t rest IH]; [reflexivity|].
  cbn [map forallb]. rewrite IH. destruct t as [a b c [d|] e]; reflexivity.
Qed.

Lemma collection_numberFree (fs : list Fulfillment) :
  Json.numberFree (Json.Array (map toJson fs)) = true.
Proof.
  cbn [Json.numberFree]. induction fs as [|f rest IH]; [reflexivity|].
  cbn [map forallb]. rewrite IH.
  cbn [toJson Json.numberFree forallb snd]. now rewrite timeline_numberFree.
Qed.

Lemma stageFromJson_stageToJson (t : TimelineStage) :
  stageFromJson (stageToJson t) = Some t.
Proof. destruct t as [a b c [d|] e]; reflexivity. Qed.

Lemma traverse_map {A B : Type} (f : A -> B) (g : B -> option A) (l : list A) :
  (forall x, g (f x) = Some x) -> traverse g (map f l) = Some l.
Proof.
  intros H. induction l as [|x rest IH]; [reflexivity|].
  cbn [map traverse]. rewrite H. cbn [bind]. now rewrite IH.
Qed.

Lemma fromJson_toJson (f : Fulfillment) : fromJson (toJson f) = Some f.
Proof.
  destruct f as [a b c d e st q h u ca tl].
  unfold fromJson, toJson. cbn [asObject bind id itemName personA personB personC status
    qrCodeUsed passwordHash passwordUsed createdAt timeline].
  change (bind (traverse stageFromJson (map stageToJson tl))
               (fun k => Some (mkFulfillment a b c d e st q h u ca k))
          = Some (mkFulfillment a b c d e st q h u ca tl)).
  now rewrite (traverse_map stageToJson stageFromJson tl stageFromJson_stageToJson).
Qed.

Lemma collectionFromJson_toJson (fs : list Fulfillment) :
  collectionFromJson (Json.Array (map toJson fs)) = Some fs.
Proof.
  unfold collectionFromJson. cbn [asArray bind].
  apply traverse_map, fromJson_toJson.
Qed.

(** What [saveToStorage] wrote is loaded back as the collection saved. *)
Lemma loadFromStorage_saved (st : Store) :
  loadFromStorage (localStorage (saveToStorage st))
  = Return (Json.Array (map toJson (fulfillments st))).
Proof.
  cbn [saveToStorage localStorage].
  pose proof (JsonFacts.parse_stringify _ (collection_numberFree (fulfillments st))) as E.
  assert (N : exists r, Json.stringify (Json.Array (map toJson (fulfillments st)))
                        = String "[" r) by (eexists; reflexivity).
  destruct N as [r N]. rewrite N in *. unfold loadFromStorage. now rewrite E.
Qed.

(** C7 as stated fails: a stored text that is not JSON makes
    [loadFromStorage] throw, and a JSON text of another shape is returned
    as it is, not as an empty collection. *)
Lemma loadFromStorage_throws_on_malformed_text :
  loadFromStorage (Some "{") = Throw SyntaxError
  /\ loadFromStorage (Some "42") = Return (Json.Number "42").
Proof. split; reflexivity. Qed.

(** C7, as the code has it: [loadFromStorage] returns the empty collection
    when the key is absent or holds the empty string, and the collection
    saved when the text is one [saveToStorage] wrote; any other text goes
    through [JSON.parse] all the same: its value is returned whatever its
    shape, and its [SyntaxError] is not caught. *)
Theorem loadFromStorage_outcomes :
  loadFromStorage None = Return (Json.Array [])
  /\ loadFromStorage (Some EmptyString) = Return (Json.Array [])
  /\ (forall st, exists v,
        loadFromStorage (localStorage (saveToStorage st)) = Return v
        /\ collectionFromJson v = Some (fulfillments st))
  /\ (forall text, text <> EmptyString -> Json.parse text = None ->
        loadFromStorage (Some text) = Throw SyntaxError)
  /\ (forall text v, text <> EmptyString -> Json.parse text = Some v ->
        loadFromStorage (Some text) = Return v).
Proof.
  split; [reflexivity|]. split; [reflexivity|]. split; [|split].
  - intros st. exists (Json.Array (map toJson (fulfillments st))).
    split; [apply loadFromStorage_saved | apply collectionFromJson_toJson].
  - intros [|c r] Hne Hp; [contradiction|]. unfold loadFromStorage. now rewrite Hp.
  - intros [|c r] v Hne Hp; [contradiction|]. unfold loadFromStorage. now rewrite Hp.
Qed.

(* ================================================================== *)
(** * Part III. More properties of the code *)
(* ================================================================== *)

(** ** The collection checkpoint *)





(** ** When a checkpoint refuses *)

(** X2: [updateStatusViaQR] succeeds exactly when the id finds a pending
    record whose token is unused; a refused call returns no record and the
    very store it was given. *)
Theorem drop_off_refusal (st : Store) (wanted now : string) :
  let outcome := updateStatusViaQR wanted now st in
  (success (fst outcome) = true <->
     exists found, getFulfillment wanted st = Some found
                   /\ qrCodeUsed found = false /\ status found = "pending")
  /\ (success (fst outcome) = false ->
        snd outcome = st /\ fulfillment (fst outcome) = None
        /\ (fst outcome = NotFound \/ fst outcome = TokenAlreadyUsed
            \/ fst outcome = InvalidStateNotPending)).
Proof.
  unfold updateStatusViaQR, getFulfillment.
  destruct (find (hasId wanted) (fulfillments st)) as [found|].
  - destruct (qrCodeUsed found) eqn:Hq.
    + cbn. split; [split; [discriminate|]|auto].
      intros (f & [= <-] & Hf & _). congruence.
    + destruct (String.eqb (status found) "pending") eqn:Hs; cbn [negb].
      * apply String.eqb_eq in Hs. cbn. split; [|discriminate].
        split; [eauto | reflexivity].
      * apply String.eqb_neq in Hs. cbn. split; [split; [discriminate|]|auto 6].
        intros (f & [= <-] & _ & Hf). contradiction.
  - cbn. split; [split; [discriminate|]|auto]. intros (f & Hf & _). discriminate.
Qed.

Lemma drop_off_refusal_witness :
  success (fst (updateStatusViaQR sampleId sampleCollectTime sampleInTransit)) = false
  /\ snd (updateStatusViaQR sampleId sampleCollectTime sampleInTransit) = sampleInTransit.
Proof.
  assert (H : success (fst (updateStatusViaQR sampleId sampleCollectTime sampleInTransit))
              = false) by (vm_compute; reflexivity).
  exact (conj H (proj1 (proj2 (drop_off_refusal sampleInTransit sampleId sampleCollectTime)
                          H))).
Defined.

(** X3: [validateAndCollect] succeeds exactly when the id finds a record
    in transit whose password is unused and the secret has the stored hash;
    a refused call returns no record and the very store it was given. *)
Theorem collection_refusal (st : Store) (wanted password now : string) :
  let outcome := validateAndCollect wanted password now st in
  (success (fst outcome) = true <->
     exists found, getFulfillment wanted st = Some found
                   /\ passwordUsed found = false /\ status found = "in-transit"
                   /\ hashPassword password = passwordHash found)
  /\ (success (fst outcome) = false ->
        snd outcome = st /\ fulfillment (fst outcome) = None
        /\ (fst outcome = NotFound \/ fst outcome = SecretAlreadyUsed
            \/ fst outcome = InvalidStateNotDroppedOff \/ fst outcome = SecretMismatch)).
Proof.
  unfold validateAndCollect, getFulfillment.
  destruct (find (hasId wanted) (fulfillments st)) as [found|].
  - destruct (passwordUsed found) eqn:Hq.
    + cbn [fst snd success fulfillment SecretAlreadyUsed failure].
      split; [split; [discriminate|]|auto 6].
      intros (f & [= <-] & Hf & _). congruence.
    + destruct (String.eqb (status found) "in-transit") eqn:Hs; cbn [negb].
      * apply String.eqb_eq in Hs.
        destruct (String.eqb (hashPassword password) (passwordHash found)) eqn:Hh;
          cbn [negb fst snd success fulfillment SecretMismatch failure].
        -- apply String.eqb_eq in Hh. split; [|discriminate].
           split; [eauto 6 | reflexivity].
        -- apply String.eqb_neq in Hh. split; [split; [discriminate|]|auto 7].
           intros (f & [= <-] & _ & _ & Hf). contradiction.
      * apply String.eqb_neq in Hs.
        cbn [fst snd success fulfillment InvalidStateNotDroppedOff failure].
        split; [split; [discriminate|]|auto 7].
        intros (f & [= <-] & _ & Hf & _). contradiction.
  - cbn [fst snd success fulfillment NotFound failure].
    split; [split; [discriminate|]|auto]. intros (f & Hf & _). discriminate.
Qed.

Lemma collection_refusal_witness :
  success (fst (validateAndCollect sampleId samplePin sampleCollectTime samplePending))
  = false
  /\ snd (validateAndCollect sampleId samplePin sampleCollectTime samplePending)
     = samplePending.
Proof.
  assert (H : success (fst (validateAndCollect sampleId samplePin sampleCollectTime
                              samplePending)) = false) by (vm_compute; reflexivity).
  exact (conj H (proj1 (proj2 (collection_refusal samplePending sampleId samplePin
                                 sampleCollectTime) H))).
Defined.

(** ** Saving and notifying *)

(** A call either leaves the store as it is, or ends with [saveToStorage]
    and [notify] on the new collection. *)
Lemma exec_untouched_or_saved (c : Call) (st : Store) :
  exec c st = st
  \/ exists fs, exec c st = notify (saveToStorage (setFulfillments fs st)).
Proof.
  destruct c as [data env|w now|w pw now|w s now|w]; cbn [exec].
  - right. eexists. reflexivity.
  - unfold updateStatusViaQR.
    destruct (find (hasId w) (fulfillments st)) as [found|]; [|now left].
    destruct (qrCodeUsed found); [now left|].
    destruct (negb _); [now left|]. right. eexists. reflexivity.
  - unfold validateAndCollect.
    destruct (find (hasId w) (fulfillments st)) as [found|]; [|now left].
    destruct (passwordUsed found); [now left|].
    destruct (negb _); [now left|].
    destruct (negb _); [now left|]. right. eexists. reflexivity.
  - unfold updateStatus.
    destruct (find (hasId w) (fulfillments st)) as [found|]; [|now left].
    right. eexists. reflexivity.
  - right. eexists. reflexivity.
Qed.

(** X4: in every store the methods reach, either nothing has been written
    yet (the store is the empty one), or the text in [localStorage] is the
    serialisation of the current collection and the last call to the
    listeners handed them the current collection. *)
Theorem persisted_and_notified_are_current (st : Store) :
  Reachable anyCall st ->
  st = emptyStore
  \/ (localStorage st
        = Some (Json.stringify (Json.Array (map toJson (fulfillments st))))
      /\ exists earlier, notifications st = fulfillments st :: earlier).
Proof.
  induction 1 as [|st c _ IH _]; [now left|].
  destruct (exec_untouched_or_saved c st) as [-> | [fs ->]]; [exact IH|].
  right. split; [reflexivity|]. eexists. reflexivity.
Qed.

Lemma persisted_and_notified_are_current_witness :
  Reachable anyCall sampleInTransit
  /\ (sampleInTransit = emptyStore
      \/ (localStorage sampleInTransit
            = Some (Json.stringify (Json.Array (map toJson (fulfillments sampleInTransit))))
          /\ exists earlier,
               notifications sampleInTransit = fulfillments sampleInTransit :: earlier)).
Proof.
  assert (H : Reachable anyCall sampleInTransit) by (repeat (constructor; try exact I)).
  exact (conj H (persisted_and_notified_are_current sampleInTransit H)).
Defined.

(** X5: in every store the methods reach, [loadFromStorage] on what is in
    [localStorage] returns, without throwing, a value that reads as the
    current collection: a reload loses nothing. *)
Theorem reload_restores_the_collection (st : Store) :
  Reachable anyCall st ->
  exists v,
    loadFromStorage (localStorage st) = Return v
    /\ collectionFromJson v = Some (fulfillments st).
Proof.
  intros H. exists (Json.Array (map toJson (fulfillments st))).
  split; [|apply collectionFromJson_toJson].
  induction H as [|st c _ IH _]; [reflexivity|].
  destruct (exec_untouched_or_saved c st) as [-> | [fs ->]]; [exact IH|].
  exact (loadFromStorage_saved (setFulfillments fs st)).
Qed.

Lemma reload_restores_the_collection_witness :
  Reachable anyCall sampleCompleted
  /\ exists v,
       loadFromStorage (localStorage sampleCompleted) = Return v
       /\ collectionFromJson v = Some (fulfillments sampleCompleted).
Proof.
  assert (H : Reachable anyCall sampleCompleted) by (repeat (constructor; try exact I)).
  exact (conj H (reload_restores_the_collection sampleCompleted H)).
Defined.

(** ** Deleting and looking up *)

Lemma find_filter_same (wanted : string) (fs : list Fulfillment) :
  find (hasId wanted) (filter (fun f => negb (hasId wanted f)) fs) = None.
Proof.
  induction fs as [|f rest IH]; [reflexivity|]. simpl.
  destruct (hasId wanted f) eqn:E; simpl; [exact IH | now rewrite E].
Qed.

Lemma filter_nothing (wanted : string) (fs : list Fulfillment) :
  find (hasId wanted) fs = None ->
  filter (fun f => negb (hasId wanted f)) fs = fs.
Proof.
  induction fs as [|f rest IH]; [reflexivity|]. simpl.
  destruct (hasId wanted f); [discriminate|]. intros H. simpl. now rewrite IH.
Qed.

(** X6: [deleteFulfillment] removes every record of the id and no other:
    the id finds nothing afterwards, the other records are those of
    before, the other ids find what they found.  It saves and notifies on
    every call, also when the id matched nothing and the collection is the
    same. *)
Theorem deleteFulfillment_removes_the_id (st : Store) (wanted : string) :
  let after := deleteFulfillment wanted st in
  getFulfillment wanted after = None
  /\ (forall f, In f (fulfillments after) <-> In f (fulfillments st) /\ id f <> wanted)
  /\ (forall other, other <> wanted ->
        getFulfillment other after = getFulfillment other st)
  /\ localStorage after
     = Some (Json.stringify (Json.Array (map toJson (fulfillments after))))
  /\ notifications after = fulfillments after :: notifications st
  /\ (getFulfillment wanted st = None -> fulfillments after = fulfillments st).
Proof.
  intros after. unfold after, deleteFulfillment, getFulfillment.
  rewrite fulfillments_saved. split; [apply find_filter_same|]. split; [|split].
  - intros f. rewrite filter_In. split; intros [Hin Hid]; split; auto.
    + intros E. apply hasId_true in E. now rewrite E in Hid.
    + destruct (hasId wanted f) eqn:E; [|reflexivity].
      apply hasId_true in E. contradiction.
  - intros other Hne. now apply find_filter_other.
  - split; [reflexivity|]. split; [reflexivity|]. apply filter_nothing.
Qed.

Lemma deleteFulfillment_removes_the_id_witness :
  getFulfillment "FUL-ABSENT" samplePending = None
  /\ fulfillments (deleteFulfillment "FUL-ABSENT" samplePending)
     = fulfillments samplePending.
Proof.
  assert (H : getFulfillment "FUL-ABSENT" samplePending = None)
    by (vm_compute; reflexivity).
  exact (conj H (proj2 (proj2 (proj2 (proj2 (proj2
           (deleteFulfillment_removes_the_id samplePending "FUL-ABSENT"))))) H)).
Defined.

(** X7: a record is found under its id as soon as [createFulfillment]
    returns, whatever the collection held, an older record of the same id
    included; the other ids find what they found. *)
Theorem created_record_is_found (data : Data.t) (env : Environment) (st : Store) :
  let out := createFulfillment data env st in
  let created := fst (fst out) in
  getFulfillment (id created) (snd out) = Some created
  /\ (forall other, other <> id created ->
        getFulfillment other (snd out) = getFulfillment other st)
  /\ List.length (fulfillments (snd out)) = S (List.length (fulfillments st)).
Proof.
  intros out created. unfold out, getFulfillment.
  cbn [createFulfillment snd]. rewrite fulfillments_saved. cbn [find List.length].
  change (newFulfillment data env (hashPassword (generatePassword (pinRandom env))))
    with created.
  split; [|split; [|reflexivity]].
  - unfold hasId at 1. now rewrite String.eqb_refl.
  - intros other Hne. destruct (hasId other created) eqn:E; [|reflexivity].
    apply hasId_true in E. congruence.
Qed.

Lemma created_record_is_found_witness :
  "FUL-ABSENT" <> id (fst (fst (createFulfillment sampleData sampleEnvironment emptyStore)))
  /\ getFulfillment "FUL-ABSENT"
       (snd (createFulfillment sampleData sampleEnvironment emptyStore))
     = getFulfillment "FUL-ABSENT" emptyStore.
Proof.
  assert (H : "FUL-ABSENT"
              <> id (fst (fst (createFulfillment sampleData sampleEnvironment emptyStore))))
    by (intros E; vm_compute in E; discriminate E).
  exact (conj H (proj1 (proj2 (created_record_is_found sampleData sampleEnvironment
                                 emptyStore)) "FUL-ABSENT" H)).
Defined.

(** ** The unchecked advance and the two credentials *)

(** X8: [updateStatus] consumes no credential and strands them.  After
    [updateStatus(id, 'in-transit')] on a record whose token is unused the
    token is refused (not pending); after [updateStatus(id, 'completed')]
    on a record whose password is unused, whether its token was used or
    not, every secret, the right one too, is refused (not dropped off); the
    store is unchanged by the refusal. *)
Theorem unchecked_advance_strands_the_credentials (st : Store)
    (wanted password now later : string) (found : Fulfillment) :
  getFulfillment wanted st = Some found ->
  let dropped := snd (updateStatus wanted "in-transit" now st) in
  let finished := snd (updateStatus wanted "completed" now st) in
  (qrCodeUsed found = false ->
     updateStatusViaQR wanted later dropped = (InvalidStateNotPending, dropped))
  /\ (passwordUsed found = false ->
        validateAndCollect wanted password later finished
        = (InvalidStateNotDroppedOff, finished)).
Proof.
  intros Hfind dropped finished. unfold getFulfillment in Hfind.
  assert (Hid : hasId wanted found = true) by (apply find_some in Hfind; tauto).
  assert (Hfound : forall s,
            find (hasId wanted) (fulfillments (snd (updateStatus wanted s now st)))
            = Some (advanced s now found)).
  { intros s. pose proof (updateStatus_collection wanted s now st) as H.
    rewrite Hfind in H. rewrite H. apply find_updateFirst_same; [exact Hfind|].
    unfold hasId in *. now rewrite id_advanced. }
  split.
  - intros Hq. unfold updateStatusViaQR, dropped. rewrite (Hfound "in-transit").
    cbn [advanced stageOfStatus String.eqb Ascii.eqb Bool.eqb markStage setTimeline
         setStatus qrCodeUsed status].
    now rewrite Hq.
  - intros Hp. unfold validateAndCollect, finished. rewrite (Hfound "completed").
    cbn [advanced stageOfStatus String.eqb Ascii.eqb Bool.eqb markStage setTimeline
         setStatus passwordUsed status].
    now rewrite Hp.
Qed.

(** The record whose token the scanner consumed, completed by the button:
    its password is refused; and the pending record the button dropped
    off: its token is refused. *)
Lemma unchecked_advance_strands_the_credentials_witness :
  let scanned := droppedOff sampleDropTime sampleRecord in
  (getFulfillment sampleId sampleInTransit = Some scanned
   /\ qrCodeUsed scanned = true
   /\ passwordUsed scanned = false
   /\ validateAndCollect sampleId samplePin sampleCollectTime
        (snd (updateStatus sampleId "completed" sampleCollectTime sampleInTransit))
      = (InvalidStateNotDroppedOff,
         snd (updateStatus sampleId "completed" sampleCollectTime sampleInTransit)))
  /\ (getFulfillment sampleId samplePending = Some sampleRecord
      /\ qrCodeUsed sampleRecord = false
      /\ updateStatusViaQR sampleId sampleCollectTime
           (snd (updateStatus sampleId "in-transit" sampleDropTime samplePending))
         = (InvalidStateNotPending,
            snd (updateStatus sampleId "in-transit" sampleDropTime samplePending))).
Proof.
  intros scanned. split.
  - exact (conj sampleInTransit_record (conj eq_refl (conj eq_refl
             (proj2 (unchecked_advance_strands_the_credentials sampleInTransit sampleId
                       samplePin sampleCollectTime sampleCollectTime scanned
                       sampleInTransit_record) eq_refl)))).
  - exact (conj samplePending_record (conj eq_refl
             (proj1 (unchecked_advance_strands_the_credentials samplePending sampleId
                       samplePin sampleDropTime sampleCollectTime sampleRecord
                       samplePending_record) eq_refl))).
Defined.

(** ** What no call undoes *)

Lemma stageEvolves_refl (t : TimelineStage) : stageEvolves t t.
Proof. repeat split; auto. Qed.

Lemma timeline_evolves_refl (tl : list TimelineStage) : Forall2 stageEvolves tl tl.
Proof. induction tl; constructor; auto using stageEvolves_refl. Qed.

Lemma timeline_evolves_trans (a b c : list TimelineStage) :
  Forall2 stageEvolves a b -> Forall2 stageEvolves b c -> Forall2 stageEvolves a c.
Proof.
  intros Hab. revert c. induction Hab as [|x y a b Hxy _ IH]; intros c Hbc;
    inversion Hbc as [|? z ? c' Hyz Hrest]; subst; constructor; auto.
  destruct Hxy as (H1 & H2 & H3 & H4), Hyz as (K1 & K2 & K3 & K4).
  repeat split; try congruence. auto.
Qed.

Lemma timeline_evolves_mark (name now : string) (tl : list TimelineStage) :
  Forall2 stageEvolves tl (updateFirst (isStage name) (completeStage now) tl).
Proof.
  induction tl as [|t rest IH]; simpl; [constructor|].
  destruct (isStage name t); constructor;
    auto using stageEvolves_refl, timeline_evolves_refl.
  repeat split; auto.
Qed.

Lemma evolves_refl (f : Fulfillment) : evolves f f.
Proof. repeat split; auto using timeline_evolves_refl. Qed.

Lemma evolves_trans (a b c : Fulfillment) : evolves a b -> evolves b c -> evolves a c.
Proof.
  intros (A1 & A2 & A3 & A4 & A5 & A6 & A7 & A8 & A9 & A10)
         (B1 & B2 & B3 & B4 & B5 & B6 & B7 & B8 & B9 & B10).
  repeat split; try congruence; auto.
  eapply timeline_evolves_trans; eassumption.
Qed.

Lemma evolves_droppedOff (now : string) (f : Fulfillment) : evolves f (droppedOff now f).
Proof. repeat split; auto. apply timeline_evolves_mark. Qed.

Lemma evolves_collected (now : string) (f : Fulfillment) : evolves f (collected now f).
Proof. repeat split; auto. apply timeline_evolves_mark. Qed.

Lemma evolves_advanced (newStatus now : string) (f : Fulfillment) :
  evolves f (advanced newStatus now f).
Proof.
  unfold advanced. destruct (stageOfStatus newStatus).
  - repeat split; auto. apply timeline_evolves_mark.
  - repeat split; auto. apply timeline_evolves_refl.
Qed.

Lemma In_updateFirst {A : Type} (p : A -> bool) (g : A -> A) (xs : list A) (y : A) :
  In y (updateFirst p g xs) -> In y xs \/ exists x, In x xs /\ y = g x.
Proof.
  induction xs as [|x rest IH]; simpl; [tauto|].
  destruct (p x); simpl.
  - intros [<-|H]; eauto.
  - intros [<-|H]; [auto|]. destruct (IH H) as [?|(x0 & ? & ?)]; eauto.
Qed.

Lemma exec_evolves (c : Call) (st : Store) (f' : Fulfillment) :
  In f' (fulfillments (exec c st)) ->
  createdBy c = Some f'
  \/ exists f, In f (fulfillments st) /\ evolves f f'.
Proof.
  assert (Hup : forall w h,
            (forall f, evolves f (h f)) ->
            In f' (updateFirst (hasId w) h (fulfillments st)) ->
            exists f, In f (fulfillments st) /\ evolves f f').
  { intros w h Hh Hin. apply In_updateFirst in Hin as [Hin|(f & Hin & ->)];
      eauto using evolves_refl. }
  destruct c as [data env|w now|w pw now|w s now|w]; cbn [exec createdBy].
  - cbn [createFulfillment snd fst]. rewrite fulfillments_saved.
    intros [<-|Hin]; [now left | right; eauto using evolves_refl].
  - destruct (updateStatusViaQR_collection w now st) as [-> | (found & _ & _ & _ & ->)];
      intros Hin; right; eauto using evolves_refl, evolves_droppedOff.
  - destruct (validateAndCollect_collection w pw now st)
      as [-> | (found & _ & _ & _ & _ & ->)];
      intros Hin; right; eauto using evolves_refl, evolves_collected.
  - pose proof (updateStatus_collection w s now st) as H.
    destruct (find (hasId w) (fulfillments st)); rewrite H;
      intros Hin; right; eauto using evolves_refl, evolves_advanced.
  - unfold deleteFulfillment. rewrite fulfillments_saved.
    intros Hin. apply filter_In in Hin as [Hin _]. right. eauto using evolves_refl.
Qed.

(** X9: through any calls, a record of the collection is a later state of
    a record that was there before or of a record one of the
    [createFulfillment] calls made: its id, names, password hash and
    creation time are the same, a flag that was set is still set, the
    timeline has the same stages and a stage that was completed is still
    completed. *)
Theorem records_only_move_forward (calls : list Call) (st : Store) (f' : Fulfillment) :
  In f' (fulfillments (run calls st)) ->
  (exists f, In f (fulfillments st) /\ evolves f f')
  \/ (exists c f, In c calls /\ createdBy c = Some f /\ evolves f f').
Proof.
  unfold run. revert st. induction calls as [|c rest IH]; intros st Hin.
  - left. eauto using evolves_refl.
  - cbn [fold_left] in Hin. destruct (IH _ Hin) as [(f1 & H1 & E1)|(c1 & f1 & Hc & Hf & E1)].
    + destruct (exec_evolves c st f1 H1) as [Hnew|(f & Hf & E)].
      * right. exists c, f1. split; [now left | split; [exact Hnew | exact E1]].
      * left. exists f. split; [exact Hf | eapply evolves_trans; eassumption].
    + right. exists c1, f1. split; [now right | split; [exact Hf | exact E1]].
Qed.

Lemma records_only_move_forward_witness :
  let calls := [ CreateFulfillment sampleData sampleEnvironment;
                 UpdateStatusViaQR sampleId sampleDropTime;
                 ValidateAndCollect sampleId samplePin sampleCollectTime ] in
  let final := collected sampleCollectTime (droppedOff sampleDropTime sampleRecord) in
  In final (fulfillments (run calls emptyStore))
  /\ ((exists f, In f (fulfillments emptyStore) /\ evolves f final)
      \/ (exists c f, In c calls /\ createdBy c = Some f /\ evolves f final)).
Proof.
  intros calls final.
  assert (H : In final (fulfillments (run calls emptyStore)))
    by exact (proj2 (getFulfillment_id _ _ _ sampleCompleted_record)).
  exact (conj H (records_only_move_forward calls emptyStore final H)).
Defined.

(** ** Status and timeline in step *)

Lemma stamped_mark (name now : string) (tl : list TimelineStage) :
  Forall stamped tl ->
  Forall stamped (updateFirst (isStage name) (completeStage now) tl).
Proof.
  induction 1 as [|t rest Ht Hrest IH]; simpl; [constructor|].
  destruct (isStage name t); constructor; auto.
  unfold stamped. cbn [completeStage completed timestamp].
  split; [intros _; discriminate | reflexivity].
Qed.

(** Completing a stage of a three-stage timeline. *)
Lemma progress_mark (now : string) (tl : list TimelineStage) (x y : bool) :
  map (fun t => (stage t, completed t)) tl
  = [("created", true); ("dropped-off", x); ("collected", y)] ->
  map (fun t => (stage t, completed t))
      (updateFirst (isStage "dropped-off") (completeStage now) tl)
  = [("created", true); ("dropped-off", true); ("collected", y)]
  /\ map (fun t => (stage t, completed t))
         (updateFirst (isStage "collected") (completeStage now) tl)
     = [("created", true); ("dropped-off", x); ("collected", true)].
Proof.
  destruct tl as [|a [|b [|c [|d rest]]]]; try discriminate.
  intros [= Ha Ca Hb Cb Hc Cc]. unfold isStage. cbn [updateFirst].
  rewrite Ha, Hb, Hc. cbn [String.eqb Ascii.eqb Bool.eqb updateFirst map completeStage
    stage completed].
  rewrite Ha, Hb, Hc, Ca, Cb, Cc. split; reflexivity.
Qed.

Lemma inStep_new (data : Data.t) (env : Environment) (hash : string) :
  inStep (newFulfillment data env hash).
Proof.
  split.
  - repeat constructor; cbn; congruence.
  - left. split; reflexivity.
Qed.

Lemma inStep_pending (f : Fulfillment) :
  inStep f -> status f = "pending" ->
  progress f = [("created", true); ("dropped-off", false); ("collected", false)].
Proof. intros [_ [[_ H]|[[E _]|[E _]]]] Hs; [exact H | congruence | congruence]. Qed.

Lemma inStep_inTransit (f : Fulfillment) :
  inStep f -> status f = "in-transit" ->
  progress f = [("created", true); ("dropped-off", true); ("collected", false)].
Proof. intros [_ [[E _]|[[_ H]|[E _]]]] Hs; [congruence | exact H | congruence]. Qed.

Lemma inStep_forward (f : Fulfillment) (newStatus now : string) (q p : bool) :
  inStep f ->
  (status f = "pending" /\ newStatus = "in-transit")
  \/ (status f = "in-transit" /\ newStatus = "completed") ->
  inStep (setPasswordUsed p (setQrCodeUsed q (advanced newStatus now f))).
Proof.
  intros Hf Hmove. pose proof Hf as [Hst _]. split.
  - unfold advanced. destruct (stageOfStatus newStatus); [|exact Hst].
    now apply stamped_mark.
  - destruct Hmove as [[Hs ->]|[Hs ->]].
    + right; left. split; [reflexivity|].
      destruct (progress_mark now _ _ _ (inStep_pending f Hf Hs)) as [H _]. exact H.
    + right; right. split; [reflexivity|].
      destruct (progress_mark now _ _ _ (inStep_inTransit f Hf Hs)) as [_ H]. exact H.
Qed.

Lemma inStep_exec (c : Call) (st : Store) :
  forwardOnly st c ->
  Forall inStep (fulfillments st) -> Forall inStep (fulfillments (exec c st)).
Proof.
  intros Hc Hst.
  destruct c as [data env|w now|w pw now|w s now|w]; cbn [exec].
  - cbn [createFulfillment snd]. rewrite fulfillments_saved.
    constructor; [apply inStep_new | exact Hst].
  - destruct (updateStatusViaQR_collection w now st)
      as [-> | (found & Hf & _ & Hs & ->)]; [exact Hst|].
    apply (Forall_updateFirst _ _ _ _ found); auto.
    intros Hfound.
    apply (inStep_forward found "in-transit" now true (passwordUsed found) Hfound); auto.
  - destruct (validateAndCollect_collection w pw now st)
      as [-> | (found & Hf & _ & Hs & _ & ->)]; [exact Hst|].
    apply (Forall_updateFirst _ _ _ _ found); auto.
    intros Hfound.
    apply (inStep_forward found "completed" now (qrCodeUsed found) true Hfound); auto.
  - pose proof (updateStatus_collection w s now st) as H.
    destruct (find (hasId w) (fulfillments st)) as [found|] eqn:Hf;
      rewrite H; [|exact Hst].
    apply (Forall_updateFirst _ _ _ _ found); auto.
    intros Hfound.
    apply (inStep_forward found s now (qrCodeUsed found) (passwordUsed found) Hfound).
    now apply Hc.
  - unfold deleteFulfillment. rewrite fulfillments_saved.
    apply Forall_forall. intros f Hin. apply filter_In in Hin as [Hin _].
    rewrite Forall_forall in Hst. auto.
Qed.

(** X10: in every store reached by the checkpoints, creation, deletion
    and the forward moves of the card buttons, the timeline of every record
    agrees with its status: pending with only ['created'] completed, in
    transit with ['created'] and ['dropped-off'] completed, completed with
    all three; and a stage has a timestamp exactly when it is completed. *)
Theorem status_and_timeline_in_step (st : Store) :
  Reachable forwardOnly st -> Forall inStep (fulfillments st).
Proof.
  induction 1 as [|st c _ IH Hc]; [constructor | now apply inStep_exec].
Qed.

Lemma sampleByButton_forward : Reachable forwardOnly sampleByButton.
Proof.
  unfold sampleByButton. constructor; [|exact I].
  constructor; [repeat (constructor; try exact I)|].
  intros f Hf. rewrite samplePending_record in Hf. injection Hf as <-.
  left. split; reflexivity.
Qed.

Lemma status_and_timeline_in_step_witness :
  Reachable forwardOnly sampleByButton /\ Forall inStep (fulfillments sampleByButton).
Proof.
  exact (conj sampleByButton_forward
           (status_and_timeline_in_step sampleByButton sampleByButton_forward)).
Defined.

(** X11: there, the timeline view marks as active the one stage that comes
    next: ['dropped-off'] while the record is pending, ['collected'] while
    it is in transit, none once it is completed; the stages before it are
    marked completed. *)
Theorem timeline_view_marks_the_next_stage (st : Store) (f : Fulfillment) :
  Reachable forwardOnly st ->
  In f (fulfillments st) ->
  let classes := map (fun t => (stage t, completedClass t, activeClass t f)) (timeline f) in
  (status f = "pending" /\
     classes = [ ("created", "completed", "");
                 ("dropped-off", "", "active");
                 ("collected", "", "") ])
  \/ (status f = "in-transit" /\
        classes = [ ("created", "completed", "");
                    ("dropped-off", "completed", "");
                    ("collected", "", "active") ])
  \/ (status f = "completed" /\
        classes = [ ("created", "completed", "");
                    ("dropped-off", "completed", "");
                    ("collected", "completed", "") ]).
Proof.
  intros Hst Hin classes.
  assert (Hall : Forall inStep (fulfillments st)).
  { clear Hin classes. induction Hst as [|st c _ IH Hc]; [constructor | now apply inStep_exec]. }
  rewrite Forall_forall in Hall. destruct (Hall f Hin) as [_ Hp].
  unfold classes, progress, completedClass, activeClass, isActiveStage in *.
  destruct (timeline f) as [|a [|b [|c [|d rest]]]];
    try (destruct Hp as [[_ Hp]|[[_ Hp]|[_ Hp]]]; discriminate).
  destruct Hp as [[Hs Hp]|[[Hs Hp]|[Hs Hp]]]; injection Hp as Ha Ca Hb Cb Hc Cc;
    [left | right; left | right; right]; (split; [exact Hs|]);
    cbn [map]; rewrite Hs, Ha, Hb, Hc, Ca, Cb, Cc; reflexivity.
Qed.

Lemma timeline_view_marks_the_next_stage_witness :
  let f := collected sampleCollectTime (advanced "in-transit" sampleDropTime sampleRecord) in
  Reachable forwardOnly sampleByButton
  /\ In f (fulfillments sampleByButton)
  /\ map (fun t => (stage t, completedClass t, activeClass t f)) (timeline f)
     = [ ("created", "completed", "");
         ("dropped-off", "completed", "");
         ("collected", "completed", "") ].
Proof.
  intros f.
  assert (E : fulfillments sampleByButton = [f]) by (vm_compute; reflexivity).
  assert (Hin : In f (fulfillments sampleByButton)) by (rewrite E; left; reflexivity).
  destruct (timeline_view_marks_the_next_stage sampleByButton f sampleByButton_forward Hin)
    as [[Hs _]|[[Hs _]|[_ H]]]; [discriminate Hs | discriminate Hs |].
  exact (conj sampleByButton_forward (conj Hin H)).
Defined.

(** ** The card buttons *)

(** X12: the button a card shows for the record its id finds advances
    that record by one stage and touches neither flag: "Drop Off" on a
    pending record puts it in transit, "Collect" on a record in transit
    completes it; a card of any other status has no button. *)
Theorem card_button_advances_one_stage (st : Store) (f : Fulfillment) (b : Button)
    (now : string) (confirmed : bool) :
  getFulfillment (id f) st = Some f ->
  allOf isIdChar (id f) = true ->
  In b (renderCardActions f) ->
  let after := handleAction (dataAction b) (dataId b) now confirmed st in
  exists updated,
    getFulfillment (id f) after = Some updated
    /\ qrCodeUsed updated = qrCodeUsed f
    /\ passwordUsed updated = passwordUsed f
    /\ ((status f = "pending" /\ caption b = "Drop Off"
         /\ status updated = "in-transit")
        \/ (status f = "in-transit" /\ caption b = "Collect"
            /\ status updated = "completed")).
Proof.
  intros Hfind _ Hb after. unfold getFulfillment in *.
  assert (Hid : hasId (id f) f = true) by (unfold hasId; apply String.eqb_refl).
  assert (Hfound : forall s,
            find (hasId (id f)) (fulfillments (snd (updateStatus (id f) s now st)))
            = Some (advanced s now f)).
  { intros s. pose proof (updateStatus_collection (id f) s now st) as H.
    rewrite Hfind in H. rewrite H. apply find_updateFirst_same; [exact Hfind|].
    unfold hasId in *. now rewrite id_advanced. }
  unfold renderCardActions in Hb.
  destruct (String.eqb (status f) "pending") eqn:Hp.
  - destruct Hb as [<-|[]]. apply String.eqb_eq in Hp.
    exists (advanced "in-transit" now f). split; [apply Hfound|].
    repeat split. left. repeat split. exact Hp.
  - destruct (String.eqb (status f) "in-transit") eqn:Ht; [|destruct Hb].
    destruct Hb as [<-|[]]. apply String.eqb_eq in Ht.
    exists (advanced "completed" now f). split; [apply Hfound|].
    repeat split. right. repeat split. exact Ht.
Qed.

Lemma card_button_advances_one_stage_witness :
  let b := mkButton "drop-off" sampleId "Drop Off" in
  getFulfillment (id sampleRecord) samplePending = Some sampleRecord
  /\ allOf isIdChar (id sampleRecord) = true
  /\ In b (renderCardActions sampleRecord)
  /\ exists updated,
       getFulfillment (id sampleRecord)
         (handleAction (dataAction b) (dataId b) sampleDropTime false samplePending)
       = Some updated
       /\ status updated = "in-transit".
Proof.
  intros b.
  assert (H1 : getFulfillment (id sampleRecord) samplePending = Some sampleRecord)
    by (vm_compute; reflexivity).
  assert (H2 : allOf isIdChar (id sampleRecord) = true) by (vm_compute; reflexivity).
  assert (H3 : In b (renderCardActions sampleRecord)) by (left; vm_compute; reflexivity).
  destruct (card_button_advances_one_stage samplePending sampleRecord b sampleDropTime
              false H1 H2 H3) as (updated & Hf & _ & _ & [(_ & _ & Hs)|(Hs & _)]);
    [|discriminate Hs].
  exact (conj H1 (conj H2 (conj H3 (ex_intro _ updated (conj Hf Hs))))).
Defined.

(** ** Identifiers and hashes as text *)

Lemma allOf_app (good : ascii -> bool) (s t : string) :
  allOf good (s ++ t) = allOf good s && allOf good t.
Proof.
  induction s as [|c r IH]; simpl; [reflexivity|]. now rewrite IH, andb_assoc.
Qed.

Lemma allOf_toUpperCase (good : ascii -> bool) (s : string) :
  allOf good (toUpperCase s) = allOf (fun c => good (upperChar c)) s.
Proof. induction s as [|c r IH]; simpl; [reflexivity | now rewrite IH]. Qed.

Lemma allOf_take (good : ascii -> bool) (n : nat) (s : string) :
  allOf good s = true -> allOf good (take n s) = true.
Proof.
  revert s. induction n as [|n IH]; intros [|c r]; simpl; auto.
  intros H. apply andb_prop in H as [-> Hr]. simpl. auto.
Qed.

Lemma allOf_digitsAux (good : ascii -> bool) (radix : N) (fuel : nat) (n : N)
    (acc : string) :
  (forall d, good (digitChar (d mod radix)) = true) ->
  allOf good acc = true -> allOf good (digitsAux fuel radix n acc) = true.
Proof.
  intros Hd. revert n acc. induction fuel as [|fuel IH]; intros n acc Hacc; [exact Hacc|].
  cbn [digitsAux].
  assert (H : allOf good (String (digitChar (n mod radix)) acc) = true)
    by (cbn [allOf]; now rewrite Hd, Hacc).
  destruct (_ =? _)%N; auto.
Qed.

Lemma digit36_upper (d : N) : isIdChar (upperChar (digitChar (d mod 36))) = true.
Proof.
  assert (E : forall n : nat, n < 36 ->
                isIdChar (upperChar (digitChar (N.of_nat n))) = true).
  { intros n Hn. do 36 (destruct n as [|n]; [reflexivity|]). lia. }
  assert (H : (d mod 36 < 36)%N) by (apply N.mod_lt; discriminate).
  rewrite <- (N2Nat.id (d mod 36)). apply E. lia.
Qed.

Lemma escapeHtml_plain (s : string) :
  noneOf isEscaped s = true -> escapeHtml s = s.
Proof.
  induction s as [|c r IH]; [reflexivity|]. cbn [noneOf escapeHtml].
  intros H. apply andb_prop in H as [Hc Hr]. rewrite (IH Hr).
  unfold escapeChar, isEscaped in *.
  destruct (code c =? 38)%N; [discriminate|].
  destruct (code c =? 160)%N; [discriminate|].
  destruct (code c =? 60)%N; [discriminate|].
  destruct (code c =? 62)%N; [discriminate|]. reflexivity.
Qed.

Lemma idChars_plain (s : string) : allOf isIdChar s = true -> noneOf isEscaped s = true.
Proof.
  induction s as [|c r IH]; [reflexivity|]. cbn [allOf noneOf].
  intros H. apply andb_prop in H as [Hc Hr]. rewrite (IH Hr), andb_true_r.
  revert Hc.
  enough (E : implb (isIdChar c) (negb (isEscaped c)) = true)
    by (destruct (isIdChar c); [intros _; exact E | discriminate]).
  revert c. apply forall_ascii. vm_compute. reflexivity.
Qed.

Lemma length_toUpperCase (s : string) :
  String.length (toUpperCase s) = String.length s.
Proof. induction s as [|c r IH]; simpl; [reflexivity | now rewrite IH]. Qed.

Lemma digitsAux_grows (fuel : nat) (radix n : N) (acc : string) :
  String.length acc <= String.length (digitsAux fuel radix n acc).
Proof.
  revert n acc. induction fuel as [|k IH]; intros n acc; [apply Nat.le_refl|].
  cbn [digitsAux]. destruct (_ =? _)%N; [cbn; lia|].
  etransitivity; [|apply IH]. cbn. lia.
Qed.

Lemma toStringRadix_nonempty (radix n : N) :
  1 <= String.length (toStringRadix radix n).
Proof.
  unfold toStringRadix. cbn [digitsAux]. destruct (_ =? _)%N; [cbn; lia|].
  etransitivity; [|apply digitsAux_grows]. cbn. lia.
Qed.

(** X13: every identifier [generateId] makes starts with ["FUL-"] and is
    made of digits, capital letters and hyphens only, so that [escapeHtml]
    leaves it unchanged: it holds no markup and no quote. *)
Theorem generateId_is_plain_text (now : N) (digits : list N) :
  let made := generateId now digits in
  substr 0 4 made = "FUL-"
  /\ allOf isIdChar made = true
  /\ escapeHtml made = made
  /\ 6 <= String.length made.
Proof.
  intros made.
  assert (Hall : allOf isIdChar made = true).
  { unfold made, generateId. rewrite !allOf_app, !allOf_toUpperCase.
    assert (H1 : allOf (fun c => isIdChar (upperChar c)) (toStringRadix 36 now) = true)
      by (apply allOf_digitsAux; [apply digit36_upper | reflexivity]).
    assert (H2 : allOf (fun c => isIdChar (upperChar c))
                   (substr 2 5 (fractionToString36 digits)) = true).
    { unfold substr, fractionToString36. apply allOf_take.
      destruct digits as [|d rest]; [reflexivity|].
      change (allOf (fun c => isIdChar (upperChar c))
                (string_of_list_ascii (map (fun d => digitChar (d mod 36)) (d :: rest)))
              = true).
      induction (d :: rest) as [|e l IH]; [reflexivity|].
      cbn [map string_of_list_ascii allOf]. now rewrite digit36_upper, IH. }
    rewrite H1, H2. reflexivity. }
  split; [reflexivity|]. split; [exact Hall|]. split.
  - apply escapeHtml_plain, idChars_plain, Hall.
  - unfold made, generateId.
    change (6 <= S (S (S (S (String.length
              (toUpperCase (toStringRadix 36 now) ++ "-"
                 ++ toUpperCase (substr 2 5 (fractionToString36 digits)))))))).
    rewrite !length_app, length_toUpperCase. cbn [String.length].
    pose proof (toStringRadix_nonempty 36 now). lia.
Qed.

Lemma hex2_hex (b : Z) : (0 <= b < 256)%Z -> allOf isHexChar (hex2 b) = true.
Proof.
  intros Hb.
  assert (E : forallb (fun k => allOf isHexChar (hex2 (Z.of_nat k))) (seq 0 256) = true)
    by (vm_compute; reflexivity).
  rewrite forallb_forall in E.
  specialize (E (Z.to_nat b)). rewrite Z2Nat.id in E by lia.
  apply E, in_seq. lia.
Qed.

(** X14: whatever the password, [hashPassword] returns 64 characters, all
    of them hexadecimal digits in lower case. *)
Theorem hashPassword_is_64_hex_digits (password : string) :
  String.length (hashPassword password) = 64
  /\ allOf isHexChar (hashPassword password) = true.
Proof.
  split; [apply hashPassword_length|].
  unfold hashPassword. destruct (digest_bytes (encode password)) as [_ Hall].
  induction Hall as [|b rest Hb _ IH]; [reflexivity|].
  cbn [map join fold_right]. rewrite allOf_app, (hex2_hex b Hb). exact IH.
Qed.

(** ** Text shown in the page *)

Lemma noneOf_app (bad : ascii -> bool) (s t : string) :
  noneOf bad (s ++ t) = noneOf bad s && noneOf bad t.
Proof.
  induction s as [|c r IH]; simpl; [reflexivity|]. now rewrite IH, andb_assoc.
Qed.

Lemma escapeChar_no_angle (c : ascii) : noneOf isAngle (escapeChar c) = true.
Proof. revert c. apply forall_ascii. vm_compute. reflexivity. Qed.

Lemma escapeChar_length (c : ascii) :
  if isEscaped c then 2 <= String.length (escapeChar c)
  else String.length (escapeChar c) = 1.
Proof.
  enough (E : (if isEscaped c
               then Nat.leb 2 (String.length (escapeChar c))
               else Nat.eqb (String.length (escapeChar c)) 1) = true).
  { destruct (isEscaped c); [now apply Nat.leb_le | now apply Nat.eqb_eq]. }
  revert c. apply forall_ascii. vm_compute. reflexivity.
Qed.

Lemma escapeHtml_length (s : string) :
  String.length s <= String.length (escapeHtml s)
  /\ (String.length (escapeHtml s) = String.length s -> noneOf isEscaped s = true).
Proof.
  induction s as [|c r [IH1 IH2]]; [split; [apply Nat.le_refl | reflexivity]|].
  cbn [escapeHtml noneOf String.length]. rewrite length_app.
  pose proof (escapeChar_length c) as E.
  destruct (isEscaped c); cbn [negb andb].
  - split; [lia | intros E'; lia].
  - split; [lia | intros E'; apply IH2; lia].
Qed.

(** X15: the text [escapeHtml] returns holds neither [<] nor [>], whatever
    it is given; a text is returned as it is exactly when it holds none of
    [&], [<], [>] and the no-break space (quotes are not touched). *)
Theorem escapeHtml_emits_no_tag (text : string) :
  noneOf isAngle (escapeHtml text) = true
  /\ (escapeHtml text = text <-> noneOf isEscaped text = true).
Proof.
  split; [|split; [|apply escapeHtml_plain]].
  - induction text as [|c r IH]; [reflexivity|].
    cbn [escapeHtml]. now rewrite noneOf_app, escapeChar_no_angle, IH.
  - intros E. apply escapeHtml_length. now rewrite E.
Qed.

Lemma escapeHtml_emits_no_tag_witness :
  (noneOf isEscaped "Laptop 13" = true /\ escapeHtml "Laptop 13" = "Laptop 13")
  /\ escapeHtml (String noBreakSpace "Tom & Co") = "&nbsp;Tom &amp; Co"
  /\ noneOf isEscaped (String noBreakSpace "Tom & Co") = false.
Proof.
  assert (H : noneOf isEscaped "Laptop 13" = true) by reflexivity.
  split; [exact (conj H (proj2 (proj2 (escapeHtml_emits_no_tag "Laptop 13")) H))|].
  split; reflexivity.
Defined.

Lemma unescape_escapeChar (c : ascii) (s : string) :
  unescapeHtml (escapeChar c ++ s) = String c (unescapeHtml s).
Proof. destruct c as [[|] [|] [|] [|] [|] [|] [|] [|]]; reflexivity. Qed.

(** X16: reading back the text [escapeHtml] wrote, with the four entities
    decoded, gives the text it was given: two different texts are never
    shown alike. *)
Theorem escapeHtml_reads_back (text other : string) :
  unescapeHtml (escapeHtml text) = text
  /\ (escapeHtml text = escapeHtml other -> text = other).
Proof.
  assert (H : forall t, unescapeHtml (escapeHtml t) = t).
  { induction t as [|c r IH]; [reflexivity|].
    cbn [escapeHtml]. now rewrite unescape_escapeChar, IH. }
  split; [apply H|]. intros E. rewrite <- (H text), <- (H other). now rewrite E.
Qed.

Lemma escapeHtml_reads_back_witness :
  escapeHtml (String noBreakSpace "<b>A&B</b>") = "&nbsp;&lt;b&gt;A&amp;B&lt;/b&gt;"
  /\ unescapeHtml (escapeHtml (String noBreakSpace "<b>A&B</b>"))
     = String noBreakSpace "<b>A&B</b>".
Proof.
  split; [reflexivity|].
  exact (proj1 (escapeHtml_reads_back (String noBreakSpace "<b>A&B</b>") EmptyString)).
Defined.

(** ** Ages *)

(** X17: [getTimeAgo] says "Just now" below one minute (and for a time in
    the future), then counts whole minutes up to 59, whole hours up to 23,
    and whole days; the unit is in the singular exactly for a count of one,
    and a count of zero is never shown. *)
Theorem getTimeAgo_wording (nowMs pastMs : Z) :
  (Z.abs (nowMs - pastMs) < 2 ^ 53)%Z ->
  let d := (nowMs - pastMs)%Z in
  let shown := getTimeAgo nowMs pastMs in
  ((d < 60000)%Z -> shown = "Just now")
  /\ ((60000 <= d < 120000)%Z -> shown = "1 minute ago")
  /\ ((120000 <= d < 3600000)%Z ->
        (2 <= d / 60000 <= 59)%Z /\ shown = showCount (d / 60000) ++ " minutes ago")
  /\ ((3600000 <= d < 7200000)%Z -> shown = "1 hour ago")
  /\ ((7200000 <= d < 86400000)%Z ->
        (2 <= d / 3600000 <= 23)%Z /\ shown = showCount (d / 3600000) ++ " hours ago")
  /\ ((86400000 <= d < 172800000)%Z -> shown = "1 day ago")
  /\ ((172800000 <= d)%Z ->
        (2 <= d / 86400000)%Z /\ shown = showCount (d / 86400000) ++ " days ago").
Proof.
  intros _ d shown. unfold shown, getTimeAgo. fold d.
  assert (Hm := Z.div_mod d 60000 ltac:(discriminate)).
  assert (Hm' := Z.mod_pos_bound d 60000 ltac:(reflexivity)).
  assert (Hh := Z.div_mod d 3600000 ltac:(discriminate)).
  assert (Hh' := Z.mod_pos_bound d 3600000 ltac:(reflexivity)).
  assert (Hd := Z.div_mod d 86400000 ltac:(discriminate)).
  assert (Hd' := Z.mod_pos_bound d 86400000 ltac:(reflexivity)).
  set (m := (d / 60000)%Z) in *. set (h := (d / 3600000)%Z) in *.
  set (n := (d / 86400000)%Z) in *.
  refine (conj _ (conj _ (conj _ (conj _ (conj _ (conj _ _)))))); intros Hr.
  - destruct (m <? 1)%Z eqn:C; [reflexivity | apply Z.ltb_ge in C; lia].
  - assert (m = 1%Z) as -> by lia. reflexivity.
  - split; [lia|].
    destruct (m <? 1)%Z eqn:C1; [apply Z.ltb_lt in C1; lia|].
    destruct (m <? 60)%Z eqn:C2; [|apply Z.ltb_ge in C2; lia].
    destruct (1 <? m)%Z eqn:C3; [reflexivity | apply Z.ltb_ge in C3; lia].
  - destruct (m <? 1)%Z eqn:C1; [apply Z.ltb_lt in C1; lia|].
    destruct (m <? 60)%Z eqn:C2; [apply Z.ltb_lt in C2; lia|].
    assert (h = 1%Z) as -> by lia. reflexivity.
  - split; [lia|].
    destruct (m <? 1)%Z eqn:C1; [apply Z.ltb_lt in C1; lia|].
    destruct (m <? 60)%Z eqn:C2; [apply Z.ltb_lt in C2; lia|].
    destruct (h <? 24)%Z eqn:C3; [|apply Z.ltb_ge in C3; lia].
    destruct (1 <? h)%Z eqn:C4; [reflexivity | apply Z.ltb_ge in C4; lia].
  - destruct (m <? 1)%Z eqn:C1; [apply Z.ltb_lt in C1; lia|].
    destruct (m <? 60)%Z eqn:C2; [apply Z.ltb_lt in C2; lia|].
    destruct (h <? 24)%Z eqn:C3; [apply Z.ltb_lt in C3; lia|].
    assert (n = 1%Z) as -> by lia. reflexivity.
  - split; [lia|].
    destruct (m <? 1)%Z eqn:C1; [apply Z.ltb_lt in C1; lia|].
    destruct (m <? 60)%Z eqn:C2; [apply Z.ltb_lt in C2; lia|].
    destruct (h <? 24)%Z eqn:C3; [apply Z.ltb_lt in C3; lia|].
    destruct (1 <? n)%Z eqn:C4; [reflexivity | apply Z.ltb_ge in C4; lia].
Qed.

Lemma getTimeAgo_wording_witness :
  (Z.abs (1730554800000 - 1730550000000) < 2 ^ 53)%Z
  /\ getTimeAgo 1730554800000 1730550000000 = "1 hour ago".
Proof.
  assert (H : (Z.abs (1730554800000 - 1730550000000) < 2 ^ 53)%Z) by reflexivity.
  destruct (getTimeAgo_wording 1730554800000 1730550000000 H) as (_ & _ & _ & H4 & _).
  exact (conj H (H4 ltac:(split; [discriminate | reflexivity]))).
Defined.

(** ** The forms *)








(** ** From creation to collection *)

Lemma both_checkpoints (f : Fulfillment) (st : Store)
    (codeInput idField pinField t1 t2 pw : string) :
  find (hasId (id f)) (fulfillments st) = Some f ->
  tidy (id f) ->
  qrCodeUsed f = false -> passwordUsed f = false -> status f = "pending" ->
  passwordHash f = hashPassword pw ->
  matchesToken codeInput (id f) ->
  trim idField = id f ->
  trim pinField = pw ->
  let scanned := handleScannerSubmit codeInput t1 st in
  let gathered := handleCollectionSubmit idField pinField t2 (snd scanned) in
  fst scanned = mkResult true "Item receipt confirmed!" (Some (droppedOff t1 f))
  /\ fst gathered
     = mkResult true "Item collected successfully!" (Some (collected t2 (droppedOff t1 f)))
  /\ getFulfillment (id f) (snd gathered) = Some (collected t2 (droppedOff t1 f)).
Proof.
  intros F1 Htidy Hq Hp Hs Hh Hcode Hid Hpin scanned gathered.
  assert (Hself : hasId (id f) f = true) by (unfold hasId; apply String.eqb_refl).
  assert (S1 : scanned
               = (mkResult true "Item receipt confirmed!" (Some (droppedOff t1 f)),
                  notify (saveToStorage (assign (id f) (droppedOff t1 f) st)))).
  { unfold scanned, handleScannerSubmit.
    rewrite (normalised_token codeInput (id f) Htidy Hcode).
    unfold updateStatusViaQR. rewrite F1, Hq, Hs. reflexivity. }
  assert (F2 : find (hasId (id f)) (fulfillments (snd scanned)) = Some (droppedOff t1 f)).
  { rewrite S1. cbn [snd].
    rewrite (fulfillments_assigned (id f) (droppedOff t1) f st F1).
    apply find_updateFirst_same; [exact F1 | exact Hself]. }
  assert (S2 : gathered
               = (mkResult true "Item collected successfully!"
                    (Some (collected t2 (droppedOff t1 f))),
                  notify (saveToStorage
                    (assign (id f) (collected t2 (droppedOff t1 f)) (snd scanned))))).
  { unfold gathered, handleCollectionSubmit. rewrite Hid, Hpin.
    unfold validateAndCollect. rewrite F2.
    change (passwordUsed (droppedOff t1 f)) with (passwordUsed f).
    change (passwordHash (droppedOff t1 f)) with (passwordHash f).
    rewrite Hp, Hh, (String.eqb_refl (hashPassword pw)). reflexivity. }
  split; [now rewrite S1|]. split; [now rewrite S2|].
  rewrite S2. cbn [snd]. unfold getFulfillment.
  rewrite (fulfillments_assigned (id f) (collected t2) _ _ F2).
  apply find_updateFirst_same; [exact F2 | exact Hself].
Qed.

(** X19: whatever the collection holds, a record made by
    [createFulfillment] goes through both checkpoints with what the creator
    was given: the scanner form accepts its id in any letter case and
    between white space, then the collection form accepts the id and the
    password between white space; the record is then completed, both flags
    are set, and the three stages are completed at the times of the three
    calls. *)
Theorem created_record_can_be_dropped_off_and_collected
    (data : Data.t) (env : Environment) (st : Store)
    (codeInput idField pinField t1 t2 : string) :
  let out := createFulfillment data env st in
  let created := fst (fst out) in
  let password := snd (fst out) in
  matchesToken codeInput (id created) ->
  trim idField = id created ->
  trim pinField = password ->
  let scanned := handleScannerSubmit codeInput t1 (snd out) in
  let gathered := handleCollectionSubmit idField pinField t2 (snd scanned) in
  success (fst scanned) = true
  /\ success (fst gathered) = true
  /\ exists final,
       getFulfillment (id created) (snd gathered) = Some final
       /\ fulfillment (fst gathered) = Some final
       /\ status final = "completed"
       /\ qrCodeUsed final = true
       /\ passwordUsed final = true
       /\ map (fun t => (stage t, completed t, timestamp t)) (timeline final)
          = [ ("created", true, Some (createdStageClock env));
              ("dropped-off", true, Some t1);
              ("collected", true, Some t2) ].
Proof.
  cbv zeta. unfold createFulfillment. cbn [fst snd].
  set (pw := generatePassword (pinRandom env)).
  set (created := newFulfillment data env (hashPassword pw)).
  intros Hcode Hid Hpin.
  assert (F1 : find (hasId (id created))
                 (fulfillments (notify (saveToStorage
                    (setFulfillments (created :: fulfillments st) st))))
               = Some created).
  { rewrite fulfillments_saved. cbn [find]. unfold hasId at 1.
    now rewrite String.eqb_refl. }
  assert (Ht : tidy (id created))
    by exact (generateId_tidy (idClock env) (idRandomDigits env)).
  assert (Hq : qrCodeUsed created = false) by reflexivity.
  assert (Hp : passwordUsed created = false) by reflexivity.
  assert (Hs : status created = "pending") by reflexivity.
  assert (Hh : passwordHash created = hashPassword pw) by reflexivity.
  destruct (both_checkpoints created _ codeInput idField pinField t1 t2 pw F1
              Ht Hq Hp Hs Hh Hcode Hid Hpin)
    as (S1 & S2 & G).
  split; [now rewrite S1|]. split; [now rewrite S2|].
  exists (collected t2 (droppedOff t1 created)).
  split; [exact G|]. split; [now rewrite S2|]. repeat split.
Qed.

Lemma created_record_can_be_dropped_off_and_collected_witness :
  let out := createFulfillment sampleData sampleEnvironment emptyStore in
  matchesToken "  ful-m304sdxc-K7x0f " (id (fst (fst out)))
  /\ trim "FUL-M304SDXC-K7X0F" = id (fst (fst out))
  /\ trim " 483173 " = snd (fst out)
  /\ success (fst (handleCollectionSubmit "FUL-M304SDXC-K7X0F" " 483173 " sampleCollectTime
                     (snd (handleScannerSubmit "  ful-m304sdxc-K7x0f " sampleDropTime
                             (snd out))))) = true.
Proof.
  intros out.
  assert (H1 : matchesToken "  ful-m304sdxc-K7x0f " (id (fst (fst out)))).
  { exists "  ", "ful-m304sdxc-K7x0f", " ". repeat split; vm_compute; reflexivity. }
  assert (H2 : trim "FUL-M304SDXC-K7X0F" = id (fst (fst out))) by (vm_compute; reflexivity).
  assert (H3 : trim " 483173 " = snd (fst out)) by (vm_compute; reflexivity).
  exact (conj H1 (conj H2 (conj H3
           (proj1 (proj2 (created_record_can_be_dropped_off_and_collected
                            sampleData sampleEnvironment emptyStore _ _ _
                            sampleDropTime sampleCollectTime H1 H2 H3)))))).
Defined.
